(** * containerd-registry: the registry backend over containerd's stores

    A shallow embedding of [main.go].  The program is glue between three
    outside parties: containerd's image service (the catalog), containerd's
    content store, and a handful of library functions (reference parsing,
    JSON decoding, quoting).  Those parties are interfaces here, exactly as
    the program sees them: records of functions.  Everything the program
    itself does -- the loops, the nil checks that are there and the ones that
    are not, the deferred calls -- is written out.

    Go features and how they are rendered:
    - [(T, error)] results: the type [result T];
    - a nil interface value: [None]; calling a method on it panics;
    - panics: the outcome [Panics] of a computation in the monad [M];
    - [defer]: the combinator [defer], which runs the deferred call after the
      body, also when the body panicked;
    - pointer receivers that assign to fields: the updated struct is returned;
    - calls that leave the process (catalog, store): logged in [World], which
      also keeps the set of store readers that are open. *)

From Stdlib Require Import List String Ascii ZArith Bool Lia Sorted.
From Stdlib.Strings Require Import Byte.
Import ListNotations.
Local Open Scope string_scope.

(** ** Errors, results, iterators *)

(** A Go [error] value; [errors_New] is [errors.New]. *)
Inductive error : Type :=
| errors_New (msg : string).

Inductive result (A : Type) : Type :=
| Ok (a : A)
| Err (e : error).
Arguments Ok {A} a.
Arguments Err {A} e.

Module digest.
Definition Digest : Type := string.
End digest.

Module ociregistry.
(** The fields of [ociregistry.Descriptor] that the program reads or
    writes.  [Size] is an [int64]; the program only compares it with 0 and
    copies it. *)
Record Descriptor : Type := {
  MediaType : string;
  Digest : digest.Digest;
  Size : Z
}.

(** [ociregistry.Iter[T]], as built by [ErrorIter] and [SliceIter]. *)
Inductive Iter (T : Type) : Type :=
| ErrorIter (err : error)
| SliceIter (xs : list T).
Arguments ErrorIter {T} err.
Arguments SliceIter {T} xs.
End ociregistry.

Module images.
Record Image : Type := {
  Name : string;
  Target : ociregistry.Descriptor
}.
End images.

Module content.
Record Info : Type := {
  Size : Z
}.

(** What the store hands out for a digest: the bytes, and what closing a
    reader over them answers. *)
Record Blob : Type := {
  data : list byte;
  closeErr : option error
}.

(** An open [content.ReaderAt]: a blob and the identity of this reader. *)
Record ReaderAt : Type := {
  id : nat;
  blob : Blob
}.

(** [ra.Size()] *)
Definition ReaderAt_Size (ra : ReaderAt) : Z :=
  Z.of_nat (List.length (data (blob ra))).

(** The [io.SectionReader] that [content.NewReader] builds. *)
Record Reader : Type := {
  src : ReaderAt;
  off : nat;
  limit : nat
}.

(** [content.NewReader(ra)] is [io.NewSectionReader(ra, 0, ra.Size())]. *)
Definition NewReader (ra : ReaderAt) : Reader :=
  {| src := ra; off := 0; limit := List.length (data (blob ra)) |}.

(** The bytes a reader can still deliver. *)
Definition remaining (r : Reader) : list byte :=
  firstn (limit r - off r) (skipn (off r) (data (blob (src r)))).
End content.

Module docker.
(** The concrete types behind [docker.Reference]. *)
Inductive Reference : Type :=
| repository (name : string)
| taggedReference (name tag : string)
| canonicalReference (name : string) (dgst : digest.Digest)
| reference (name tag : string) (dgst : digest.Digest)
| digestReference (dgst : digest.Digest).

(** [ref.(docker.Digested)] *)
Definition Digested (ref : Reference) : option digest.Digest :=
  match ref with
  | canonicalReference _ d | reference _ _ d | digestReference d => Some d
  | repository _ | taggedReference _ _ => None
  end.

(** [ref.(docker.Tagged)], giving [Tag()] *)
Definition Tagged (ref : Reference) : option string :=
  match ref with
  | taggedReference _ t | reference _ t _ => Some t
  | repository _ | canonicalReference _ _ | digestReference _ => None
  end.

(** A [docker.Named] as [ParseNormalizedNamed] returns it; the program
    calls [Name()] only. *)
Record Named : Type := {
  Name : string
}.
End docker.

(** The struct [GetManifest] decodes into. *)
Record mediaTypeWrapper : Type := {
  wrapper_MediaType : string
}.

(** ** The outside parties *)

(** [containerd.Client]: the image service and the content store.
    [ContentStore_ReadAt ra off len] is [ra.ReadAt(p, off)] with
    [len(p) = len] on a reader the store handed out: the bytes that came and
    the error.  A store that works answers with the bytes of the blob and no
    error; any store may answer fewer bytes and an error. *)
Record Client : Type := {
  ImageService_List : list string -> result (list images.Image);
  ImageService_Get : string -> result images.Image;
  ContentStore_Info : digest.Digest -> result content.Info;
  ContentStore_ReaderAt : ociregistry.Descriptor -> result content.Blob;
  ContentStore_ReadAt : content.ReaderAt -> nat -> nat -> list byte * option error
}.

(** The library functions the program calls. *)
Record Imports : Type := {
  docker_Parse : string -> result docker.Reference;
  docker_ParseNormalizedNamed : string -> result docker.Named;
  strconv_Quote : string -> string;
  (** [json.NewDecoder(r).Decode(&mediaTypeWrapper)] over the bytes [r]
      delivers. *)
  json_Decode : list byte -> result mediaTypeWrapper
}.

(** ** Effects *)

Inductive Call : Type :=
| CallList (filters : list string)
| CallGet (name : string)
| CallInfo (dgst : digest.Digest)
| CallReaderAt (dgst : digest.Digest)
| CallReadAt (rid : nat) (offset len : nat)
| CallDecode (rid : nat) (readable : nat)
| CallClose (rid : nat).

Record World : Type := {
  opened : list nat;
  fresh : nat;
  calls : list Call
}.

Definition World0 : World := {| opened := []; fresh := 0; calls := [] |}.

Inductive outcome (A : Type) : Type :=
| Returns (a : A)
| Panics (msg : string).
Arguments Returns {A} a.
Arguments Panics {A} msg.

Definition M (A : Type) : Type := World -> World * outcome A.

Definition ret {A : Type} (a : A) : M A := fun w => (w, Returns a).

Definition bind {A B : Type} (m : M A) (f : A -> M B) : M B :=
  fun w =>
    match m w with
    | (w', Returns a) => f a w'
    | (w', Panics msg) => (w', Panics msg)
    end.

Notation "x <- m ;; k" := (bind m (fun x => k))
  (at level 61, m at next level, right associativity).
Notation "' p <- m ;; k" := (bind m (fun x => match x with p => k end))
  (at level 61, p pattern, m at next level, right associativity).

Definition nilDereference : string :=
  "runtime error: invalid memory address or nil pointer dereference".

Definition panic {A : Type} (msg : string) : M A := fun w => (w, Panics msg).

(** [defer d; body]: [d] runs when [body] is over, whether it returned or
    panicked; what [d] returns is dropped; a panic in [d] replaces the
    outcome. *)
Definition defer {A B : Type} (d : M B) (body : M A) : M A :=
  fun w =>
    match body w with
    | (w1, o) =>
      match d w1 with
      | (w2, Returns _) => (w2, o)
      | (w2, Panics msg) => (w2, Panics msg)
      end
    end.

(** The world with one more call on its log. *)
Definition logged (c : Call) (w : World) : World :=
  {| opened := opened w; fresh := fresh w; calls := calls w ++ [c] |}.

Definition record (c : Call) : M unit :=
  fun w => (logged c w, Returns tt).

(** [is.List(ctx, filters...)] *)
Definition List_ (client : Client) (filters : list string)
  : M (result (list images.Image)) :=
  _ <- record (CallList filters) ;;
  ret (ImageService_List client filters).

(** [is.Get(ctx, name)] *)
Definition Get (client : Client) (name : string) : M (result images.Image) :=
  _ <- record (CallGet name) ;;
  ret (ImageService_Get client name).

(** [ContentStore().Info(ctx, digest)] *)
Definition Info (client : Client) (dgst : digest.Digest)
  : M (result content.Info) :=
  _ <- record (CallInfo dgst) ;;
  ret (ContentStore_Info client dgst).

(** The world with a new reader open; the reader gets the identity
    [fresh w]. *)
Definition opening (w : World) : World :=
  {| opened := fresh w :: opened w; fresh := S (fresh w); calls := calls w |}.

(** The open readers without reader [rid]. *)
Definition released (rid : nat) (open : list nat) : list nat :=
  filter (fun i => negb (i =? rid)%nat) open.

Definition closing (rid : nat) (w : World) : World :=
  {| opened := released rid (opened w); fresh := fresh w; calls := calls w |}.

(** [ContentStore().ReaderAt(ctx, desc)]: on success a reader is open. *)
Definition ReaderAt (client : Client) (desc : ociregistry.Descriptor)
  : M (result content.ReaderAt) :=
  _ <- record (CallReaderAt (ociregistry.Digest desc)) ;;
  match ContentStore_ReaderAt client desc with
  | Err e => ret (Err e)
  | Ok b =>
    fun w => (opening w, Returns (Ok {| content.id := fresh w; content.blob := b |}))
  end.

(** [readerAt.Close()] on an interface value; nil panics. *)
Definition ReaderAt_Close (readerAt : option content.ReaderAt)
  : M (option error) :=
  match readerAt with
  | None => panic nilDereference
  | Some ra =>
    _ <- record (CallClose (content.id ra)) ;;
    fun w => (closing (content.id ra) w,
              Returns (content.closeErr (content.blob ra)))
  end.

Definition io_EOF : error := errors_New "EOF".

(** [Read(p)] of an [io.SectionReader] over a store reader, with
    [len(p) = n].  At the limit it answers [io.EOF] and does not ask the
    store.  Otherwise it cuts [p] down to what is left up to the limit, asks
    the store's [ReadAt] at its offset, moves on by the bytes that came, and
    returns them with the store's error, whatever it is.  The result is the
    reader moved on, the bytes, the error. *)
Definition Reader_Read (client : Client) (r : content.Reader) (n : nat)
  : M (content.Reader * list byte * option error) :=
  if (content.limit r <=? content.off r)%nat then ret (r, [], Some io_EOF)
  else
    let n := Nat.min n (content.limit r - content.off r) in
    _ <- record (CallReadAt (content.id (content.src r)) (content.off r) n) ;;
    match ContentStore_ReadAt client (content.src r) (content.off r) n with
    | (got, err) =>
      let p := firstn n got in
      ret ({| content.src := content.src r;
              content.off := content.off r + List.length p;
              content.limit := content.limit r |}, p, err)
    end.

(** [json.NewDecoder(r).Decode(&mediaTypeWrapper)]: the decoder may read
    everything [r] can deliver. *)
Definition Decode (imports : Imports) (r : content.Reader)
  : M (result mediaTypeWrapper) :=
  _ <- record (CallDecode (content.id (content.src r))
                          (List.length (content.remaining r))) ;;
  ret (json_Decode imports (content.remaining r)).

(** ** [Repositories] and [Tags] *)

(** [containerdRegistry]; the embedded [*ociregistry.Funcs] has no part in
    the methods below. *)
Record containerdRegistry : Type := {
  client : Client
}.

(** One round of the loop of [Repositories]: [names] so far, the next
    image. *)
Definition Repositories_step (imports : Imports)
    (names : list string) (image : images.Image) : list string :=
  match docker_ParseNormalizedNamed imports (images.Name image) with
  | Err _ => names
  | Ok ref =>
    let repo := docker.Name ref in
    if (0 <? List.length names)%nat && (last names EmptyString =? repo) then names
    else names ++ [repo]
  end.

Definition Repositories (imports : Imports) (r : containerdRegistry)
  : M (ociregistry.Iter string) :=
  res <- List_ (client r) [] ;;
  match res with
  | Err err => ret (ociregistry.ErrorIter err)
  | Ok images =>
    ret (ociregistry.SliceIter (fold_left (Repositories_step imports) images []))
  end.

Definition backslash : ascii := ascii_of_nat 92.
Definition dquote : ascii := ascii_of_nat 34.

(** The bytes [regexp.QuoteMeta] escapes: the thirteen of
    [\.+*?()|[]{}^$]. *)
Definition special (b : ascii) : bool :=
  existsb (Ascii.eqb b) (backslash :: list_ascii_of_string ".+*?()|[]{}^$").

(** [regexp.QuoteMeta] *)
Fixpoint regexp_QuoteMeta (s : string) : string :=
  match s with
  | EmptyString => EmptyString
  | String b s' =>
    if special b then String backslash (String b (regexp_QuoteMeta s'))
    else String b (regexp_QuoteMeta s')
  end.

(** The regular expression [Tags] asks the catalog to match names with. *)
Definition Tags_pattern (repo : string) : string :=
  "^" ++ regexp_QuoteMeta repo ++ ":".

Definition Tags_filter (imports : Imports) (repo : string) : string :=
  "name~=" ++ strconv_Quote imports (Tags_pattern repo).

(** One round of the loop of [Tags]. *)
Definition Tags_step (imports : Imports)
    (tags : list string) (image : images.Image) : list string :=
  match docker_Parse imports (images.Name image) with
  | Err _ => tags
  | Ok ref =>
    match docker.Digested ref with
    | Some _ => tags
    | None =>
      match docker.Tagged ref with
      | Some tag => tags ++ [tag]
      | None => tags
      end
    end
  end.

Definition Tags (imports : Imports) (r : containerdRegistry) (repo : string)
  : M (ociregistry.Iter string) :=
  res <- List_ (client r) [Tags_filter imports repo] ;;
  match res with
  | Err err => ret (ociregistry.ErrorIter err)
  | Ok images =>
    ret (ociregistry.SliceIter (fold_left (Tags_step imports) images []))
  end.

(** ** The blob reader *)

(** [containerdBlobReader]; the [ctx] field is handed on to the store
    untouched and left out. *)
Record containerdBlobReader : Type := {
  br_client : Client;
  desc : ociregistry.Descriptor;
  readerAt : option content.ReaderAt;
  reader : option content.Reader
}.

Definition set_desc (br : containerdBlobReader) (d : ociregistry.Descriptor)
  : containerdBlobReader :=
  {| br_client := br_client br; desc := d;
     readerAt := readerAt br; reader := reader br |}.

Definition set_readerAt (br : containerdBlobReader) (ra : option content.ReaderAt)
  : containerdBlobReader :=
  {| br_client := br_client br; desc := desc br;
     readerAt := ra; reader := reader br |}.

Definition set_reader (br : containerdBlobReader) (rd : option content.Reader)
  : containerdBlobReader :=
  {| br_client := br_client br; desc := desc br;
     readerAt := readerAt br; reader := rd |}.

Definition validate (br : containerdBlobReader)
  : M (containerdBlobReader * option error) :=
  res <- Info (br_client br) (ociregistry.Digest (desc br)) ;;
  match res with
  | Err err => ret (br, Some err)
  | Ok info =>
    let br :=
      if (ociregistry.Size (desc br) =? 0)%Z && negb (content.Size info =? 0)%Z
      then set_desc br {| ociregistry.MediaType := ociregistry.MediaType (desc br);
                          ociregistry.Digest := ociregistry.Digest (desc br);
                          ociregistry.Size := content.Size info |}
      else br in
    let br :=
      if ociregistry.MediaType (desc br) =? EmptyString
      then set_desc br {| ociregistry.MediaType := "application/octet-stream";
                          ociregistry.Digest := ociregistry.Digest (desc br);
                          ociregistry.Size := ociregistry.Size (desc br) |}
      else br in
    ret (br, None)
  end.

Definition ensureReaderAt (br : containerdBlobReader)
  : M (containerdBlobReader * result content.ReaderAt) :=
  match readerAt br with
  | None =>
    res <- ReaderAt (br_client br) (desc br) ;;
    match res with
    | Err err => ret (set_readerAt br None, Err err)
    | Ok ra => ret (set_readerAt br (Some ra), Ok ra)
    end
  | Some ra => ret (br, Ok ra)
  end.

Definition ensureReader (br : containerdBlobReader)
  : M (containerdBlobReader * result content.Reader) :=
  match reader br with
  | None =>
    '(br, res) <- ensureReaderAt br ;;
    match res with
    | Err err => ret (br, Err err)
    | Ok ra =>
      let rd := content.NewReader ra in
      ret (set_reader br (Some rd), Ok rd)
    end
  | Some rd => ret (br, Ok rd)
  end.

(** [Read(p)] with [len(p) = n]. *)
Definition Read (br : containerdBlobReader) (n : nat)
  : M (containerdBlobReader * list byte * option error) :=
  '(br, res) <- ensureReader br ;;
  match res with
  | Err err => ret (br, [], Some err)
  | Ok rd =>
    '(rd, p, err) <- Reader_Read (br_client br) rd n ;;
    ret (set_reader br (Some rd), p, err)
  end.

Definition Descriptor (br : containerdBlobReader) : ociregistry.Descriptor :=
  desc br.

Definition Close (br : containerdBlobReader) : M (option error) :=
  ReaderAt_Close (readerAt br).

Definition newContainerdBlobReaderFromDescriptor
    (client : Client) (desc : ociregistry.Descriptor)
  : M (result containerdBlobReader) :=
  let br := {| br_client := client; desc := desc;
               readerAt := None; reader := None |} in
  '(br, err) <- validate br ;;
  match err with
  | Some err =>
    _ <- Close br ;;
    ret (Err err)
  | None => ret (Ok br)
  end.

Definition newContainerdBlobReaderFromDigest
    (client : Client) (dgst : digest.Digest)
  : M (result containerdBlobReader) :=
  newContainerdBlobReaderFromDescriptor client
    {| ociregistry.MediaType := EmptyString; ociregistry.Digest := dgst;
       ociregistry.Size := 0 |}.

(** ** The registry operations *)

Definition GetBlob (r : containerdRegistry) (repo : string)
    (dgst : digest.Digest) : M (result containerdBlobReader) :=
  newContainerdBlobReaderFromDigest (client r) dgst.

Definition GetManifest (imports : Imports) (r : containerdRegistry)
    (repo : string) (dgst : digest.Digest) : M (result containerdBlobReader) :=
  let desc := {| ociregistry.MediaType := EmptyString; ociregistry.Digest := dgst;
                 ociregistry.Size := 0 |} in
  res <- ReaderAt (client r) desc ;;
  match res with
  | Err err => ret (Err err)
  | Ok ra =>
    defer (ReaderAt_Close (Some ra))
      (res <- Decode imports (content.NewReader ra) ;;
       match res with
       | Err err => ret (Err err)
       | Ok mediaTypeWrapper =>
         if wrapper_MediaType mediaTypeWrapper =? EmptyString
         then ret (Err (errors_New "failed to parse mediaType"))
         else
           newContainerdBlobReaderFromDescriptor (client r)
             {| ociregistry.MediaType := wrapper_MediaType mediaTypeWrapper;
                ociregistry.Digest := dgst;
                ociregistry.Size := content.ReaderAt_Size ra |}
       end)
  end.

Definition GetTag (r : containerdRegistry) (repo tagName : string)
  : M (result containerdBlobReader) :=
  res <- Get (client r) (repo ++ ":" ++ tagName) ;;
  match res with
  | Err err => ret (Err err)
  | Ok img =>
    ret (Ok {| br_client := client r; desc := images.Target img;
               readerAt := None; reader := None |})
  end.

(** The three [Resolve] methods return [(ociregistry.Descriptor{}, err)] on
    failure: [Err err] here. *)
Definition ResolveBlob (r : containerdRegistry) (repo : string)
    (dgst : digest.Digest) : M (result ociregistry.Descriptor) :=
  res <- GetBlob r repo dgst ;;
  match res with
  | Err err => ret (Err err)
  | Ok blobReader => defer (Close blobReader) (ret (Ok (Descriptor blobReader)))
  end.

Definition ResolveManifest (imports : Imports) (r : containerdRegistry)
    (repo : string) (dgst : digest.Digest) : M (result ociregistry.Descriptor) :=
  res <- GetManifest imports r repo dgst ;;
  match res with
  | Err err => ret (Err err)
  | Ok blobReader => defer (Close blobReader) (ret (Ok (Descriptor blobReader)))
  end.

Definition ResolveTag (r : containerdRegistry) (repo tagName : string)
  : M (result ociregistry.Descriptor) :=
  res <- GetTag r repo tagName ;;
  match res with
  | Err err => ret (Err err)
  | Ok blobReader => defer (Close blobReader) (ret (Ok (Descriptor blobReader)))
  end.

(** ** What the catalog does with the pattern *)

(** The string a pattern of the shape [Tags_pattern] builds stands for: bytes
    that are not special stand for themselves, a backslash makes the special
    byte after it literal.  [None] for anything else, which [regexp.QuoteMeta]
    never produces. *)
Fixpoint literal_of (pat : string) : option string :=
  match pat with
  | EmptyString => Some EmptyString
  | String c pat' =>
    if Ascii.eqb c backslash then
      match pat' with
      | EmptyString => None
      | String e pat'' =>
        if special e then option_map (String e) (literal_of pat'') else None
      end
    else if special c then None
    else option_map (String c) (literal_of pat')
  end.

(** [regexp.MatchString(pat, s)] for a pattern that is [^] and then
    literals: with no [$] at the end, [s] matches when it starts with the
    literal text.  This is how containerd evaluates [name~=pat]. *)
Definition regexp_MatchString (pat s : string) : option bool :=
  match pat with
  | String "^" pat' => option_map (fun lit => prefix lit s) (literal_of pat')
  | _ => None
  end.

(** ** Descriptor completion *)

(** Descriptor completion in the words of the specification: a size that
    is not set is filled from the store, a media type that is not set becomes
    the generic one. *)
Definition completed (info : content.Info) (d : ociregistry.Descriptor)
  : ociregistry.Descriptor :=
  {| ociregistry.MediaType :=
       if ociregistry.MediaType d =? EmptyString
       then "application/octet-stream" else ociregistry.MediaType d;
     ociregistry.Digest := ociregistry.Digest d;
     ociregistry.Size :=
       if (ociregistry.Size d =? 0)%Z then content.Size info
       else ociregistry.Size d |}.

(** ** Orders on names *)

(** Go compares strings byte by byte; so does [String.compare]. *)
Definition str_le (a b : string) : Prop := String.leb a b = true.
Definition str_lt (a b : string) : Prop := String.ltb a b = true.

(** The repository names of a listing, in its order, unparsable names
    left out. *)
Definition parsed_names (imports : Imports) (images : list images.Image)
  : list string :=
  flat_map (fun image =>
              match docker_ParseNormalizedNamed imports (images.Name image) with
              | Ok ref => [docker.Name ref]
              | Err _ => []
              end) images.

(** A list with each run of equal neighbours cut down to one element. *)
Fixpoint squeeze (xs : list string) : list string :=
  match xs with
  | [] => []
  | x :: rest =>
    match rest with
    | [] => [x]
    | y :: _ => if x =? y then squeeze rest else x :: squeeze rest
    end
  end.

(** The tags of a listing, in its order: one for each name that parses as
    tagged and not digested. *)
Definition parsed_tags (imports : Imports) (images : list images.Image)
  : list string :=
  flat_map (fun image =>
              match docker_Parse imports (images.Name image) with
              | Ok (docker.taggedReference _ tag) => [tag]
              | _ => []
              end) images.

(** ** Test doubles

    An in-memory catalog and store, and library functions given by the table
    of their answers on the names and documents of the examples. *)

Module Mock.

Definition ErrNotFound : error := errors_New "not found".

Fixpoint lookup {A : Type} (k : string) (tbl : list (string * A)) : option A :=
  match tbl with
  | [] => None
  | (k', v) :: tbl' => if k =? k' then Some v else lookup k tbl'
  end.

(** [strconv.Quote] on printable ASCII: backslash and double quote get a
    backslash, the whole is put between double quotes. *)
Fixpoint escape (s : string) : string :=
  match s with
  | EmptyString => EmptyString
  | String c s' =>
    if Ascii.eqb c backslash || Ascii.eqb c dquote
    then String backslash (String c (escape s'))
    else String c (escape s')
  end.

Definition Quote (s : string) : string :=
  String dquote (escape s ++ String dquote EmptyString).

(** The text between the double quotes of a quoted string, escapes undone. *)
Fixpoint unescape (s : string) : option string :=
  match s with
  | EmptyString => None
  | String c s' =>
    if Ascii.eqb c dquote then
      match s' with EmptyString => Some EmptyString | _ => None end
    else if Ascii.eqb c backslash then
      match s' with
      | EmptyString => None
      | String e s'' => option_map (String e) (unescape s'')
      end
    else option_map (String c) (unescape s')
  end.

Definition Unquote (s : string) : option string :=
  match s with
  | String c s' => if Ascii.eqb c dquote then unescape s' else None
  | EmptyString => None
  end.

(** A filter [name~=<quoted pattern>] applied to a name. *)
Definition filter_matches (f name : string) : bool :=
  if prefix "name~=" f then
    match Unquote (substring 6 (String.length f - 6) f) with
    | Some pat =>
      match regexp_MatchString pat name with
      | Some b => b
      | None => false
      end
    | None => false
    end
  else false.

(** [ReadAt] of a store that works: the bytes of the blob from [off] on, as
    many as were asked for; [io.EOF] when the blob ends before that. *)
Definition ReadAt_blob (ra : content.ReaderAt) (off len : nat)
  : list byte * option error :=
  let p := firstn len (skipn off (content.data (content.blob ra))) in
  (p, if (List.length p <? len)%nat then Some io_EOF else None).

Definition newClient (catalog : list images.Image)
    (store : list (digest.Digest * list byte)) : Client :=
  {| ImageService_List := fun filters =>
       Ok (filter (fun img =>
                     forallb (fun f => filter_matches f (images.Name img)) filters)
                  catalog);
     ImageService_Get := fun name =>
       match find (fun img => images.Name img =? name) catalog with
       | Some img => Ok img
       | None => Err ErrNotFound
       end;
     ContentStore_Info := fun dgst =>
       match lookup dgst store with
       | Some bytes => Ok {| content.Size := Z.of_nat (List.length bytes) |}
       | None => Err ErrNotFound
       end;
     ContentStore_ReaderAt := fun desc =>
       match lookup (ociregistry.Digest desc) store with
       | Some bytes => Ok {| content.data := bytes; content.closeErr := None |}
       | None => Err ErrNotFound
       end;
     ContentStore_ReadAt := ReadAt_blob |}.

Definition registry (catalog : list images.Image)
    (store : list (digest.Digest * list byte)) : containerdRegistry :=
  {| client := newClient catalog store |}.

Definition sha : digest.Digest :=
  "sha256:9f86d081884c7d659a2feaa0c55ad015a3bf4f1b2b0b822cd15d6c15b0f00a08".

(** [docker.Parse] on the names of the examples. *)
Definition Parse_table : list (string * docker.Reference) :=
  [ ("docker.io/a/b:v1", docker.taggedReference "docker.io/a/b" "v1");
    ("docker.io/a/b:v2", docker.taggedReference "docker.io/a/b" "v2");
    ("docker.io/a/b@" ++ sha, docker.canonicalReference "docker.io/a/b" sha);
    ("docker.io/a/b:v3@" ++ sha, docker.reference "docker.io/a/b" "v3" sha);
    ("docker.io/c/d@" ++ sha, docker.canonicalReference "docker.io/c/d" sha);
    ("foo:v1", docker.taggedReference "foo" "v1");
    ("foobar:v2", docker.taggedReference "foobar" "v2");
    ("localhost:5000/foo:v1", docker.taggedReference "localhost:5000/foo" "v1") ].

(** [docker.ParseNormalizedNamed] on the names of the examples: a name
    without a registry host gets [docker.io/], a single-component one
    [docker.io/library/]. *)
Definition ParseNormalizedNamed_table : list (string * docker.Named) :=
  [ ("docker.io/a/b:v1", {| docker.Name := "docker.io/a/b" |});
    ("docker.io/a/b:v2", {| docker.Name := "docker.io/a/b" |});
    ("docker.io/a/b@" ++ sha, {| docker.Name := "docker.io/a/b" |});
    ("docker.io/c/d@" ++ sha, {| docker.Name := "docker.io/c/d" |});
    ("docker.io/library/ubuntu:latest", {| docker.Name := "docker.io/library/ubuntu" |});
    ("foo/bar:x", {| docker.Name := "docker.io/foo/bar" |});
    ("ubuntu:22.04", {| docker.Name := "docker.io/library/ubuntu" |}) ].

(** A JSON text written with ['] where JSON has the double quote. *)
Definition json (s : string) : list byte :=
  map (fun c => byte_of_ascii (if Ascii.eqb c "'" then dquote else c))
      (list_ascii_of_string s).

Definition manifest : list byte :=
  json "{'schemaVersion':2,'mediaType':'application/vnd.oci.image.manifest.v1+json','config':{},'layers':[]}".

Definition untyped : list byte :=
  json "{'schemaVersion':2,'config':{},'layers':[]}".

Definition emptyTyped : list byte :=
  json "{'schemaVersion':2,'mediaType':'','config':{},'layers':[]}".

(** [Decode] into the [mediaTypeWrapper] on the documents of the examples: a
    field that is not there leaves the zero value. *)
Definition Decode_table : list (string * mediaTypeWrapper) :=
  [ (string_of_list_byte manifest,
     {| wrapper_MediaType := "application/vnd.oci.image.manifest.v1+json" |});
    (string_of_list_byte untyped, {| wrapper_MediaType := EmptyString |});
    (string_of_list_byte emptyTyped, {| wrapper_MediaType := EmptyString |}) ].

Definition from_table {A : Type} (tbl : list (string * A)) (k : string)
  : result A :=
  match lookup k tbl with
  | Some v => Ok v
  | None => Err (errors_New "not in the table")
  end.

Definition imports : Imports :=
  {| docker_Parse := from_table Parse_table;
     docker_ParseNormalizedNamed := from_table ParseNormalizedNamed_table;
     strconv_Quote := Quote;
     json_Decode := fun bytes => from_table Decode_table (string_of_list_byte bytes) |}.

Definition image (name : string) : images.Image :=
  {| images.Name := name;
     images.Target := {| ociregistry.MediaType := "application/vnd.oci.image.manifest.v1+json";
                         ociregistry.Digest := sha;
                         ociregistry.Size := 128 |} |}.

(** A store with one blob of 42 bytes, and two readers over it. *)
Definition blobs : list (digest.Digest * list byte) := [(sha, repeat x00 42)].

Definition digestOnly : containerdBlobReader :=
  {| br_client := newClient [] blobs;
     desc := {| ociregistry.MediaType := EmptyString;
                ociregistry.Digest := sha;
                ociregistry.Size := 0 |};
     readerAt := None; reader := None |}.

Definition complete : containerdBlobReader :=
  {| br_client := newClient [] blobs;
     desc := {| ociregistry.MediaType := "application/octet-stream";
                ociregistry.Digest := sha;
                ociregistry.Size := 42 |};
     readerAt := None; reader := None |}.

(** A store with a manifest, and stores with documents that lack the
    field or have it empty. *)
Definition manifests : list (digest.Digest * list byte) := [(sha, manifest)].
Definition untypeds : list (digest.Digest * list byte) := [(sha, untyped)].
Definition emptyTypeds : list (digest.Digest * list byte) := [(sha, emptyTyped)].

(** Catalogs, each in the order of its names. *)
Definition tidyCatalog : list images.Image :=
  map image ["docker.io/a/b:v1"; "docker.io/a/b:v2"; "docker.io/c/d@" ++ sha].

Definition shortNamesCatalog : list images.Image :=
  map image ["docker.io/library/ubuntu:latest"; "foo/bar:x"; "ubuntu:22.04"].

Definition localCatalog : list images.Image :=
  map image ["foo:v1"; "foobar:v2"; "localhost:5000/foo:v1"].

Definition manifestReader : containerdBlobReader :=
  {| br_client := newClient [] manifests;
     desc := {| ociregistry.MediaType := "application/vnd.oci.image.manifest.v1+json";
                ociregistry.Digest := sha;
                ociregistry.Size := 100 |};
     readerAt := None; reader := None |}.

(** A reader whose descriptor says 7 bytes of [text/plain] over the blob of
    42 bytes. *)
Definition mismatched : containerdBlobReader :=
  {| br_client := newClient [] blobs;
     desc := {| ociregistry.MediaType := "text/plain";
                ociregistry.Digest := sha;
                ociregistry.Size := 7 |};
     readerAt := None; reader := None |}.

(** A reader over the manifest document, as a first [Read] of 10 bytes
    leaves it. *)
Definition manifestBlob : content.Blob :=
  {| content.data := manifest; content.closeErr := None |}.

Definition openReaderAt : content.ReaderAt :=
  {| content.id := 0; content.blob := manifestBlob |}.

Definition readingReader : containerdBlobReader :=
  {| br_client := newClient [] manifests;
     desc := desc manifestReader;
     readerAt := Some openReaderAt;
     reader := Some {| content.src := openReaderAt; content.off := 10;
                       content.limit := 100 |} |}.

(** A client whose every call fails. *)
Definition ErrUnavailable : error := errors_New "connection refused".

Definition downClient : Client :=
  {| ImageService_List := fun _ => Err ErrUnavailable;
     ImageService_Get := fun _ => Err ErrUnavailable;
     ContentStore_Info := fun _ => Err ErrUnavailable;
     ContentStore_ReaderAt := fun _ => Err ErrUnavailable;
     ContentStore_ReadAt := fun _ _ _ => ([], Some ErrUnavailable) |}.

(** A store that opens a reader for the manifest but has no [Info] for
    it. *)
Definition halfClient : Client :=
  {| ImageService_List := fun _ => Ok [];
     ImageService_Get := fun _ => Err ErrNotFound;
     ContentStore_Info := fun _ => Err ErrNotFound;
     ContentStore_ReaderAt := fun _ => Ok manifestBlob;
     ContentStore_ReadAt := ReadAt_blob |}.

(** A store that opens a reader for the manifest, and whose reads break off
    after 4 bytes with an error. *)
Definition flakyClient : Client :=
  {| ImageService_List := fun _ => Ok [];
     ImageService_Get := fun _ => Err ErrNotFound;
     ContentStore_Info := fun _ => Ok {| content.Size := 100 |};
     ContentStore_ReaderAt := fun _ => Ok manifestBlob;
     ContentStore_ReadAt := fun ra off len =>
       (firstn 4 (fst (ReadAt_blob ra off len)), Some ErrUnavailable) |}.

Definition flakyReader : containerdBlobReader :=
  {| br_client := flakyClient;
     desc := {| ociregistry.MediaType := "application/octet-stream";
                ociregistry.Digest := sha;
                ociregistry.Size := 100 |};
     readerAt := None; reader := None |}.

(** [docker.ParseNormalizedNamed] on some more names. *)
Definition hyphenated_table : list (string * docker.Named) :=
  [ ("docker.io/a/b-c:v1", {| docker.Name := "docker.io/a/b-c" |});
    ("docker.io/a/b:v1", {| docker.Name := "docker.io/a/b" |});
    ("docker.io/a/b:v2", {| docker.Name := "docker.io/a/b" |}) ].

Definition hyphenated : Imports :=
  {| docker_Parse := from_table Parse_table;
     docker_ParseNormalizedNamed := from_table hyphenated_table;
     strconv_Quote := Quote;
     json_Decode := fun bytes => from_table Decode_table (string_of_list_byte bytes) |}.

(** In the order of its names: the hyphen sorts before the colon. *)
Definition hyphenatedCatalog : list images.Image :=
  map image ["docker.io/a/b-c:v1"; "docker.io/a/b:v1"; "docker.io/a/b:v2"].

(** Entries that are digested, or have no tag. *)
Definition digestedCatalog : list images.Image :=
  map image ["docker.io/a/b@" ++ sha; "docker.io/a/b:v3@" ++ sha;
             "docker.io/c/d@" ++ sha].

End Mock.

(** ** Accounting of store readers *)

(** Every reader that is open was handed out earlier: its identity is below
    [fresh]. *)
Definition wf (w : World) : Prop :=
  Forall (fun rid => rid < fresh w) (opened w).

(** ** Names that stand together *)

(** The list after the run of [x] at its head. *)
Fixpoint after_run (x : string) (l : list string) : list string :=
  match l with
  | [] => []
  | y :: rest => if x =? y then after_run x rest else l
  end.

(** Equal names are neighbours: once the run of a name is over, the name
    does not come again. *)
Fixpoint grouped (l : list string) : bool :=
  match l with
  | [] => true
  | x :: rest => negb (existsb (String.eqb x) (after_run x rest)) && grouped rest
  end.

Ltac run :=
  unfold bind, ret, panic, record, defer, Info, Get, List_; cbn.

(** * Properties *)

(** ** The blob reader: [validate], [Close] *)

Lemma validate_Err (br : containerdBlobReader) (err : error) (w : World) :
  ContentStore_Info (br_client br) (ociregistry.Digest (desc br)) = Err err ->
  validate br w
  = (logged (CallInfo (ociregistry.Digest (desc br))) w, Returns (br, Some err)).
Proof.
  intros H. unfold validate. run. rewrite H. reflexivity.
Qed.

Lemma validate_Ok (br : containerdBlobReader) (info : content.Info) (w : World) :
  ContentStore_Info (br_client br) (ociregistry.Digest (desc br)) = Ok info ->
  validate br w
  = (logged (CallInfo (ociregistry.Digest (desc br))) w,
     Returns (set_desc br (completed info (desc br)), None)).
Proof.
  intros H. unfold validate. run. rewrite H.
  destruct br as [c [mt dg sz] ra rd]; destruct info as [isz]; cbn.
  unfold completed; cbn.
  destruct (Z.eqb_spec sz 0) as [-> | Hsz]; cbn.
  - destruct (Z.eqb_spec isz 0) as [-> | Hi]; cbn;
      destruct (mt =? EmptyString); reflexivity.
  - destruct (mt =? EmptyString); reflexivity.
Qed.

Lemma completed_set (info : content.Info) (d : ociregistry.Descriptor) :
  ociregistry.Size d <> 0%Z ->
  ociregistry.MediaType d <> EmptyString ->
  completed info d = d.
Proof.
  intros Hs Hm. destruct d as [mt dg sz]; cbn in *. unfold completed; cbn.
  apply Z.eqb_neq in Hs. apply String.eqb_neq in Hm. rewrite Hs, Hm.
  reflexivity.
Qed.

Lemma completed_twice (info : content.Info) (d : ociregistry.Descriptor) :
  completed info (completed info d) = completed info d.
Proof.
  destruct d as [mt dg sz]; destruct info as [isz]. unfold completed; cbn.
  f_equal.
  - destruct (mt =? EmptyString) eqn:E; cbn; [reflexivity | now rewrite E].
  - destruct (Z.eqb_spec sz 0) as [-> | Hsz].
    + destruct (Z.eqb_spec isz 0); congruence.
    + apply Z.eqb_neq in Hsz. now rewrite Hsz.
Qed.

Lemma set_desc_same (br : containerdBlobReader) : set_desc br (desc br) = br.
Proof. destruct br; reflexivity. Qed.

(** C9.  Descriptor completion is idempotent.  When the size is not 0 and
    the media type is not empty, [validate] returns the reader as it got it,
    whatever the store answers; and when [validate] has succeeded once,
    running it again on its result succeeds and changes nothing. *)
Theorem validate_idempotent :
  forall (br : containerdBlobReader) (w : World),
    (ociregistry.Size (desc br) <> 0%Z ->
     ociregistry.MediaType (desc br) <> EmptyString ->
     exists err,
       validate br w
       = (logged (CallInfo (ociregistry.Digest (desc br))) w, Returns (br, err)))
    /\
    (forall (w1 : World) (br1 : containerdBlobReader),
        validate br w = (w1, Returns (br1, None)) ->
        forall w2 : World,
          validate br1 w2
          = (logged (CallInfo (ociregistry.Digest (desc br1))) w2,
             Returns (br1, None))).
Proof.
  intros br w. split.
  - intros Hs Hm.
    destruct (ContentStore_Info (br_client br) (ociregistry.Digest (desc br)))
      as [info | err] eqn:E.
    + exists None. rewrite (validate_Ok _ _ _ E).
      now rewrite completed_set, set_desc_same.
    + exists (Some err). now rewrite (validate_Err _ _ _ E).
  - intros w1 br1 H w2.
    destruct (ContentStore_Info (br_client br) (ociregistry.Digest (desc br)))
      as [info | err] eqn:E.
    + rewrite (validate_Ok _ _ _ E) in H. injection H as _ <-.
      assert (E' : ContentStore_Info
                     (br_client (set_desc br (completed info (desc br))))
                     (ociregistry.Digest
                        (desc (set_desc br (completed info (desc br)))))
                   = Ok info) by exact E.
      rewrite (validate_Ok _ _ _ E'). cbn [desc set_desc].
      rewrite completed_twice. reflexivity.
    + rewrite (validate_Err _ _ _ E) in H. discriminate.
Qed.

Lemma validate_idempotent_witness :
  (exists err,
      validate Mock.complete World0
      = (logged (CallInfo Mock.sha) World0, Returns (Mock.complete, err)))
  /\ validate Mock.complete World0
     = (logged (CallInfo Mock.sha) World0, Returns (Mock.complete, None)).
Proof.
  split.
  - apply (proj1 (validate_idempotent Mock.complete World0));
      cbn; [lia | discriminate].
  - apply (proj2 (validate_idempotent Mock.digestOnly World0)
                 (logged (CallInfo Mock.sha) World0) Mock.complete).
    reflexivity.
Defined.

(** C1.  [Close] on a reader nothing was read from.  Such a reader has no
    store reader ([readerAt] is nil), and [Close] calls a method on it: the
    call panics instead of returning without an error. *)
Theorem Close_before_Read_panics :
  forall (c : Client) (d : ociregistry.Descriptor) (w : World),
    Close {| br_client := c; desc := d; readerAt := None; reader := None |} w
    = (w, Panics nilDereference).
Proof. reflexivity. Qed.

(** Once a read has opened the store reader, [Close] closes it and answers
    what the store answers. *)
Lemma Close_after_Read (br : containerdBlobReader) (b : content.Blob)
    (n : nat) (w : World) :
  readerAt br = None -> reader br = None ->
  ContentStore_ReaderAt (br_client br) (desc br) = Ok b ->
  exists w1 br1 p err,
    Read br n w = (w1, Returns (br1, p, err)) /\
    opened w1 = fresh w :: opened w /\
    exists w2, Close br1 w1 = (w2, Returns (content.closeErr b)) /\
               opened w2 = released (fresh w) (opened w1).
Proof.
  intros Hra Hrd Hb.
  unfold Read, ensureReader, ensureReaderAt, ReaderAt, Reader_Read.
  rewrite Hrd, Hra. run. rewrite Hb. cbn.
  destruct (List.length (content.data b)) as [| len]; cbn;
    [| destruct (ContentStore_ReadAt (br_client br)
                   {| content.id := fresh w; content.blob := b |} 0
                   (Nat.min n (S len))) as [got e]; cbn];
    (do 4 eexists; split; [reflexivity |]; split; [reflexivity |];
     unfold Close; cbn; run; eexists; split; reflexivity).
Qed.

Lemma newContainerdBlobReaderFromDescriptor_Err
    (c : Client) (d : ociregistry.Descriptor) (err : error) (w : World) :
  ContentStore_Info c (ociregistry.Digest d) = Err err ->
  newContainerdBlobReaderFromDescriptor c d w
  = (logged (CallInfo (ociregistry.Digest d)) w, Panics nilDereference).
Proof.
  intros H. unfold newContainerdBlobReaderFromDescriptor.
  unfold bind at 1. rewrite (validate_Err _ err) by exact H. reflexivity.
Qed.

Lemma newContainerdBlobReaderFromDescriptor_Ok
    (c : Client) (d : ociregistry.Descriptor) (info : content.Info) (w : World) :
  ContentStore_Info c (ociregistry.Digest d) = Ok info ->
  newContainerdBlobReaderFromDescriptor c d w
  = (logged (CallInfo (ociregistry.Digest d)) w,
     Returns (Ok {| br_client := c; desc := completed info d;
                    readerAt := None; reader := None |})).
Proof.
  intros H. unfold newContainerdBlobReaderFromDescriptor.
  unfold bind at 1. rewrite (validate_Ok _ info) by exact H. reflexivity.
Qed.

(** A reader that construction returns has no store reader yet. *)
Lemma newContainerdBlobReaderFromDescriptor_unopened
    (c : Client) (d : ociregistry.Descriptor) (w w' : World)
    (br : containerdBlobReader) :
  newContainerdBlobReaderFromDescriptor c d w = (w', Returns (Ok br)) ->
  readerAt br = None.
Proof.
  destruct (ContentStore_Info c (ociregistry.Digest d)) as [info | err] eqn:E.
  - rewrite (newContainerdBlobReaderFromDescriptor_Ok _ _ _ _ E).
    intros H. injection H as _ <-. reflexivity.
  - rewrite (newContainerdBlobReaderFromDescriptor_Err _ _ _ _ E). discriminate.
Qed.

(** C2.  [GetBlob] for a digest the store does not know: [validate] gets
    the store's error, and the constructor then calls [Close] on the reader
    it has just built, which panics; the error is never returned.  No store
    reader was opened. *)
Theorem GetBlob_unknown_digest_panics :
  forall (r : containerdRegistry) (repo : string) (dgst : digest.Digest)
         (err : error) (w : World),
    ContentStore_Info (client r) dgst = Err err ->
    GetBlob r repo dgst w = (logged (CallInfo dgst) w, Panics nilDereference).
Proof.
  intros r repo dgst err w H.
  unfold GetBlob, newContainerdBlobReaderFromDigest.
  now rewrite (newContainerdBlobReaderFromDescriptor_Err _ _ err).
Qed.

Lemma GetBlob_unknown_digest_panics_witness :
  ContentStore_Info (client (Mock.registry [] [])) Mock.sha = Err Mock.ErrNotFound
  /\ GetBlob (Mock.registry [] []) "a/b" Mock.sha World0
     = (logged (CallInfo Mock.sha) World0, Panics nilDereference).
Proof.
  split; [reflexivity |].
  apply (GetBlob_unknown_digest_panics _ _ _ Mock.ErrNotFound). reflexivity.
Defined.

(** C7.  [GetBlob] for a digest the store knows: the reader comes back
    unopened, with the digest asked for, the size the store gives and the
    media type [application/octet-stream]. *)
Theorem GetBlob_completes_descriptor :
  forall (r : containerdRegistry) (repo : string) (dgst : digest.Digest)
         (info : content.Info) (w : World),
    ContentStore_Info (client r) dgst = Ok info ->
    GetBlob r repo dgst w
    = (logged (CallInfo dgst) w,
       Returns (Ok {| br_client := client r;
                      desc := {| ociregistry.MediaType := "application/octet-stream";
                                 ociregistry.Digest := dgst;
                                 ociregistry.Size := content.Size info |};
                      readerAt := None; reader := None |})).
Proof.
  intros r repo dgst info w H.
  unfold GetBlob, newContainerdBlobReaderFromDigest.
  now rewrite (newContainerdBlobReaderFromDescriptor_Ok _ _ info).
Qed.

Lemma GetBlob_completes_descriptor_witness :
  ContentStore_Info (client (Mock.registry [] [(Mock.sha, repeat x00 42)])) Mock.sha
  = Ok {| content.Size := 42 |}
  /\ GetBlob (Mock.registry [] [(Mock.sha, repeat x00 42)]) "a/b" Mock.sha World0
     = (logged (CallInfo Mock.sha) World0,
        Returns (Ok {| br_client := client (Mock.registry [] [(Mock.sha, repeat x00 42)]);
                       desc := {| ociregistry.MediaType := "application/octet-stream";
                                  ociregistry.Digest := Mock.sha;
                                  ociregistry.Size := 42 |};
                       readerAt := None; reader := None |})).
Proof.
  split; [reflexivity |].
  apply (GetBlob_completes_descriptor _ _ _ {| content.Size := 42 |}).
  reflexivity.
Defined.

Lemma GetTag_run (r : containerdRegistry) (repo tagName : string) (w : World) :
  GetTag r repo tagName w
  = (logged (CallGet (repo ++ ":" ++ tagName)) w,
     Returns
       match ImageService_Get (client r) (repo ++ ":" ++ tagName) with
       | Ok img => Ok {| br_client := client r; desc := images.Target img;
                         readerAt := None; reader := None |}
       | Err err => Err err
       end).
Proof.
  unfold GetTag, Get, bind, record, ret.
  destruct (ImageService_Get (client r) (repo ++ ":" ++ tagName)); reflexivity.
Qed.

(** C10.  [GetTag] asks the catalog for [repo:tagName] and nothing else: on
    an entry it returns an unopened reader over the entry's target
    descriptor as it is, on an error it returns that error.  The store is not
    called and no reader is opened. *)
Theorem GetTag_wraps_target :
  forall (r : containerdRegistry) (repo tagName : string) (w : World),
    GetTag r repo tagName w
    = (logged (CallGet (repo ++ ":" ++ tagName)) w,
       Returns
         match ImageService_Get (client r) (repo ++ ":" ++ tagName) with
         | Ok img => Ok {| br_client := client r; desc := images.Target img;
                           readerAt := None; reader := None |}
         | Err err => Err err
         end).
Proof. exact GetTag_run. Qed.

(** ** [GetManifest] *)

Lemma remaining_NewReader (ra : content.ReaderAt) :
  content.remaining (content.NewReader ra) = content.data (content.blob ra).
Proof.
  unfold content.remaining, content.NewReader; cbn.
  rewrite Nat.sub_0_r. apply firstn_all.
Qed.

Lemma GetManifest_no_blob (imports : Imports) (r : containerdRegistry)
    (repo : string) (dgst : digest.Digest) (err : error) (w : World) :
  ContentStore_ReaderAt (client r)
    {| ociregistry.MediaType := EmptyString; ociregistry.Digest := dgst;
       ociregistry.Size := 0 |} = Err err ->
  GetManifest imports r repo dgst w
  = (logged (CallReaderAt dgst) w, Returns (Err err)).
Proof.
  intros H. unfold GetManifest, ReaderAt, bind, record, ret. cbn.
  rewrite H. reflexivity.
Qed.

(** [GetManifest] step by step, when the store has the blob. *)
Lemma GetManifest_run (imports : Imports) (r : containerdRegistry)
    (repo : string) (dgst : digest.Digest) (b : content.Blob) (w : World) :
  ContentStore_ReaderAt (client r)
    {| ociregistry.MediaType := EmptyString; ociregistry.Digest := dgst;
       ociregistry.Size := 0 |} = Ok b ->
  let rid := fresh w in
  let w2 := logged (CallDecode rid (List.length (content.data b)))
                   (opening (logged (CallReaderAt dgst) w)) in
  let close := fun w' => closing rid (logged (CallClose rid) w') in
  GetManifest imports r repo dgst w
  = match json_Decode imports (content.data b) with
    | Err err => (close w2, Returns (Err err))
    | Ok wr =>
      if wrapper_MediaType wr =? EmptyString
      then (close w2, Returns (Err (errors_New "failed to parse mediaType")))
      else
        match ContentStore_Info (client r) dgst with
        | Err _ => (close (logged (CallInfo dgst) w2), Panics nilDereference)
        | Ok info =>
          (close (logged (CallInfo dgst) w2),
           Returns (Ok {| br_client := client r;
                          desc := completed info
                                    {| ociregistry.MediaType := wrapper_MediaType wr;
                                       ociregistry.Digest := dgst;
                                       ociregistry.Size :=
                                         Z.of_nat (List.length (content.data b)) |};
                          readerAt := None; reader := None |}))
        end
    end.
Proof.
  intros H rid w2 close.
  unfold GetManifest, ReaderAt. unfold bind at 1. unfold bind at 1.
  unfold record at 1. cbn beta iota. rewrite H.
  unfold defer, Decode. unfold bind at 1. unfold bind at 1.
  unfold record at 1. cbn beta iota. unfold ret at 1.
  rewrite remaining_NewReader. cbn [content.blob content.id content.src content.NewReader].
  fold rid. fold w2.
  destruct (json_Decode imports (content.data b)) as [wr | err].
  - destruct (wrapper_MediaType wr =? EmptyString).
    + reflexivity.
    + unfold content.ReaderAt_Size; cbn [content.blob].
      destruct (ContentStore_Info (client r) dgst) as [info | err] eqn:E.
      * rewrite (newContainerdBlobReaderFromDescriptor_Ok _ _ info) by exact E.
        reflexivity.
      * rewrite (newContainerdBlobReaderFromDescriptor_Err _ _ err) by exact E.
        reflexivity.
  - reflexivity.
Qed.

Lemma GetManifest_unopened (imports : Imports) (r : containerdRegistry)
    (repo : string) (dgst : digest.Digest) (w w' : World)
    (br : containerdBlobReader) :
  GetManifest imports r repo dgst w = (w', Returns (Ok br)) ->
  readerAt br = None.
Proof.
  destruct (ContentStore_ReaderAt (client r)
              {| ociregistry.MediaType := EmptyString; ociregistry.Digest := dgst;
                 ociregistry.Size := 0 |}) as [b | err] eqn:E.
  - rewrite (GetManifest_run _ _ _ _ _ _ E).
    destruct (json_Decode imports (content.data b)) as [wr | err];
      [| discriminate].
    destruct (wrapper_MediaType wr =? EmptyString); [discriminate |].
    destruct (ContentStore_Info (client r) dgst); [| discriminate].
    intros H. injection H as _ <-. reflexivity.
  - rewrite (GetManifest_no_blob _ _ _ _ _ _ E). discriminate.
Qed.

(** The deferred [Close] of the [Resolve] methods, on a reader that was
    never read from. *)
Lemma deferred_Close_panics (br : containerdBlobReader) (w : World) :
  readerAt br = None ->
  defer (Close br) (ret (Ok (Descriptor br))) w = (w, Panics nilDereference).
Proof.
  intros H. unfold defer, ret, Close. rewrite H. reflexivity.
Qed.

(** C3.  The [Resolve] methods where the [Get] method succeeds.  The reader
    they get has not been read from, so the deferred [Close] panics: no
    descriptor is returned. *)
Theorem Resolve_panics_on_success :
  forall (imports : Imports) (r : containerdRegistry) (repo : string)
         (dgst : digest.Digest) (tagName : string) (w w' : World)
         (br : containerdBlobReader),
    (GetBlob r repo dgst w = (w', Returns (Ok br)) ->
     ResolveBlob r repo dgst w = (w', Panics nilDereference))
    /\
    (GetManifest imports r repo dgst w = (w', Returns (Ok br)) ->
     ResolveManifest imports r repo dgst w = (w', Panics nilDereference))
    /\
    (GetTag r repo tagName w = (w', Returns (Ok br)) ->
     ResolveTag r repo tagName w = (w', Panics nilDereference)).
Proof.
  intros imports r repo dgst tagName w w' br. repeat split; intros H.
  - unfold ResolveBlob, bind. rewrite H. apply deferred_Close_panics.
    unfold GetBlob, newContainerdBlobReaderFromDigest in H.
    exact (newContainerdBlobReaderFromDescriptor_unopened _ _ _ _ _ H).
  - unfold ResolveManifest, bind. rewrite H. apply deferred_Close_panics.
    exact (GetManifest_unopened _ _ _ _ _ _ _ H).
  - unfold ResolveTag, bind. rewrite H. apply deferred_Close_panics.
    rewrite GetTag_run in H.
    destruct (ImageService_Get (client r) (repo ++ ":" ++ tagName));
      [| discriminate].
    injection H as _ <-. reflexivity.
Qed.

Lemma Resolve_panics_on_success_witness :
  ResolveBlob (Mock.registry [] Mock.blobs) "a/b" Mock.sha World0
  = (logged (CallInfo Mock.sha) World0, Panics nilDereference)
  /\ snd (ResolveManifest Mock.imports (Mock.registry [] Mock.manifests)
                          "a/b" Mock.sha World0)
     = Panics nilDereference
  /\ ResolveTag (Mock.registry [Mock.image "docker.io/a/b:v1"] [])
                "docker.io/a/b" "v1" World0
     = (logged (CallGet "docker.io/a/b:v1") World0, Panics nilDereference).
Proof.
  split; [| split].
  - apply (proj1 (Resolve_panics_on_success
                    Mock.imports (Mock.registry [] Mock.blobs) "a/b" Mock.sha
                    "v1" World0 (logged (CallInfo Mock.sha) World0)
                    Mock.complete)).
    reflexivity.
  - rewrite (proj1 (proj2 (Resolve_panics_on_success
                    Mock.imports (Mock.registry [] Mock.manifests) "a/b" Mock.sha
                    "v1" World0
                    (fst (GetManifest Mock.imports (Mock.registry [] Mock.manifests)
                                      "a/b" Mock.sha World0))
                    Mock.manifestReader))).
    + reflexivity.
    + reflexivity.
  - apply (proj2 (proj2 (Resolve_panics_on_success
                    Mock.imports (Mock.registry [Mock.image "docker.io/a/b:v1"] [])
                    "docker.io/a/b" Mock.sha "v1" World0
                    (logged (CallGet "docker.io/a/b:v1") World0)
                    {| br_client := Mock.newClient [Mock.image "docker.io/a/b:v1"] [];
                       desc := images.Target (Mock.image "docker.io/a/b:v1");
                       readerAt := None; reader := None |}))).
    reflexivity.
Defined.

(** C4.  [GetManifest] puts no bound on what the decoder may read: the
    reader it hands to the decoder delivers the whole blob.  Whatever the
    bound, there is a store with a blob for which more bytes than that are
    readable. *)
Theorem GetManifest_decode_unbounded :
  forall (imports : Imports) (max : nat),
    exists (r : containerdRegistry) (dgst : digest.Digest),
      forall (repo : string) (w : World),
        exists rid readable : nat,
          In (CallDecode rid readable)
             (calls (fst (GetManifest imports r repo dgst w)))
          /\ max < readable.
Proof.
  intros imports max.
  exists (Mock.registry [] [(Mock.sha, repeat x20 (S max))]), Mock.sha.
  intros repo w. exists (fresh w), (S max). split; [| lia].
  assert (E : ContentStore_ReaderAt
                (client (Mock.registry [] [(Mock.sha, repeat x20 (S max))]))
                {| ociregistry.MediaType := EmptyString;
                   ociregistry.Digest := Mock.sha; ociregistry.Size := 0 |}
              = Ok {| content.data := repeat x20 (S max);
                      content.closeErr := None |}).
  { unfold Mock.registry, Mock.newClient, Mock.lookup.
    cbn [client ContentStore_ReaderAt ociregistry.Digest].
    now rewrite String.eqb_refl. }
  rewrite (GetManifest_run _ _ _ _ _ _ E).
  cbn [content.data]. rewrite repeat_length.
  assert (Hin : forall w0 : World,
             In (CallDecode (fresh w) (S max))
                (calls (logged (CallDecode (fresh w) (S max)) w0))).
  { intros w0. unfold logged; cbn [calls]. apply in_or_app. right. now left. }
  assert (Hlog : forall (c c' : Call) (w0 : World),
             In c (calls w0) -> In c (calls (logged c' w0))).
  { intros c c' w0 H. unfold logged; cbn [calls]. apply in_or_app. now left. }
  destruct (json_Decode imports (repeat x20 (S max))) as [wr | err].
  - destruct (wrapper_MediaType wr =? EmptyString).
    + cbn [fst closing calls]. apply Hlog, Hin.
    + destruct (ContentStore_Info _ Mock.sha);
        cbn [fst closing calls]; apply Hlog, Hlog, Hin.
  - cbn [fst closing calls]. apply Hlog, Hin.
Qed.

(** C8.  [GetManifest] on a blob the store has.  When the decoder leaves
    the media type empty (the field is not in the document, or is the empty
    string) the result is the error [failed to parse mediaType], not a
    reader; when the decoder fails, the result is its error.  A reader that
    is returned has the decoded, non-empty media type, the digest asked for,
    and for its size the byte length of the blob. *)
Theorem GetManifest_requires_mediaType :
  forall (imports : Imports) (r : containerdRegistry) (repo : string)
         (dgst : digest.Digest) (b : content.Blob) (w : World),
    ContentStore_ReaderAt (client r)
      {| ociregistry.MediaType := EmptyString; ociregistry.Digest := dgst;
         ociregistry.Size := 0 |} = Ok b ->
    (forall wr : mediaTypeWrapper,
        json_Decode imports (content.data b) = Ok wr ->
        wrapper_MediaType wr = EmptyString ->
        snd (GetManifest imports r repo dgst w)
        = Returns (Err (errors_New "failed to parse mediaType")))
    /\
    (forall err : error,
        json_Decode imports (content.data b) = Err err ->
        snd (GetManifest imports r repo dgst w) = Returns (Err err))
    /\
    (forall br : containerdBlobReader,
        snd (GetManifest imports r repo dgst w) = Returns (Ok br) ->
        exists wr : mediaTypeWrapper,
          json_Decode imports (content.data b) = Ok wr
          /\ wrapper_MediaType wr <> EmptyString
          /\ ociregistry.MediaType (desc br) = wrapper_MediaType wr
          /\ ociregistry.Digest (desc br) = dgst
          /\ (content.data b <> [] ->
              ociregistry.Size (desc br)
              = Z.of_nat (List.length (content.data b)))).
Proof.
  intros imports r repo dgst b w E.
  rewrite (GetManifest_run _ _ _ _ _ _ E). split; [| split].
  - intros wr Hd Hm. rewrite Hd, Hm. reflexivity.
  - intros err Hd. rewrite Hd. reflexivity.
  - intros br.
    destruct (json_Decode imports (content.data b)) as [wr | err];
      [| discriminate].
    destruct (wrapper_MediaType wr =? EmptyString) eqn:Hm; [discriminate |].
    destruct (ContentStore_Info (client r) dgst) as [info | err];
      [| discriminate].
    cbn [snd]. intros H. injection H as <-.
    exists wr. apply String.eqb_neq in Hm.
    split; [reflexivity |]. split; [exact Hm |].
    unfold completed; cbn.
    apply String.eqb_neq in Hm. rewrite Hm.
    split; [reflexivity |]. split; [reflexivity |].
    intros Hne.
    destruct (content.data b) as [| x xs]; [now elim Hne |].
    reflexivity.
Qed.

Lemma GetManifest_requires_mediaType_witness :
  snd (GetManifest Mock.imports (Mock.registry [] Mock.untypeds)
                   "a/b" Mock.sha World0)
  = Returns (Err (errors_New "failed to parse mediaType"))
  /\ snd (GetManifest Mock.imports (Mock.registry [] Mock.emptyTypeds)
                      "a/b" Mock.sha World0)
     = Returns (Err (errors_New "failed to parse mediaType"))
  /\ exists wr : mediaTypeWrapper,
       json_Decode Mock.imports Mock.manifest = Ok wr
       /\ wrapper_MediaType wr <> EmptyString
       /\ ociregistry.MediaType (desc Mock.manifestReader) = wrapper_MediaType wr
       /\ ociregistry.Digest (desc Mock.manifestReader) = Mock.sha
       /\ ociregistry.Size (desc Mock.manifestReader) = 100%Z.
Proof.
  split; [| split].
  - apply (proj1 (GetManifest_requires_mediaType
                    Mock.imports (Mock.registry [] Mock.untypeds) "a/b" Mock.sha
                    {| content.data := Mock.untyped; content.closeErr := None |}
                    World0 eq_refl)
                 {| wrapper_MediaType := EmptyString |});
      reflexivity.
  - apply (proj1 (GetManifest_requires_mediaType
                    Mock.imports (Mock.registry [] Mock.emptyTypeds) "a/b" Mock.sha
                    {| content.data := Mock.emptyTyped; content.closeErr := None |}
                    World0 eq_refl)
                 {| wrapper_MediaType := EmptyString |});
      reflexivity.
  - destruct (proj2 (proj2 (GetManifest_requires_mediaType
                       Mock.imports (Mock.registry [] Mock.manifests) "a/b" Mock.sha
                       {| content.data := Mock.manifest; content.closeErr := None |}
                       World0 eq_refl))
                    Mock.manifestReader eq_refl)
      as (wr & Hd & Hne & Hmt & Hdg & Hsz).
    exists wr. split; [exact Hd |]. split; [exact Hne |].
    split; [exact Hmt |]. split; [exact Hdg |].
    rewrite Hsz; [reflexivity | discriminate].
Defined.

(** ** The order of strings *)

Lemma compare_refl (s : string) : String.compare s s = Eq.
Proof.
  induction s as [| c s IH]; cbn; [reflexivity |].
  unfold Ascii.compare. now rewrite N.compare_refl.
Qed.

Lemma compare_Lt_trans (a b c : string) :
  String.compare a b = Lt -> String.compare b c = Lt -> String.compare a c = Lt.
Proof.
  revert b c. induction a as [| x a IH]; intros [| y b] [| z c]; cbn;
    try easy.
  unfold Ascii.compare.
  destruct (N.compare_spec (N_of_ascii x) (N_of_ascii y)) as [Hxy | Hxy | Hxy];
    destruct (N.compare_spec (N_of_ascii y) (N_of_ascii z)) as [Hyz | Hyz | Hyz];
    try easy; intros Hab Hbc.
  - rewrite Hxy, Hyz, N.compare_refl. now apply IH with b.
  - rewrite Hxy. now apply N.compare_lt_iff in Hyz as ->.
  - rewrite <- Hyz. now apply N.compare_lt_iff in Hxy as ->.
  - assert (H : (N_of_ascii x < N_of_ascii z)%N) by lia.
    now apply N.compare_lt_iff in H as ->.
Qed.

Lemma str_lt_trans (a b c : string) : str_lt a b -> str_lt b c -> str_lt a c.
Proof.
  unfold str_lt, String.ltb. intros Hab Hbc.
  destruct (String.compare a b) eqn:Eab; try discriminate.
  destruct (String.compare b c) eqn:Ebc; try discriminate.
  now rewrite (compare_Lt_trans _ _ _ Eab Ebc).
Qed.

Lemma str_lt_irrefl (a : string) : ~ str_lt a a.
Proof. unfold str_lt, String.ltb. now rewrite compare_refl. Qed.

Lemma str_le_neq_lt (a b : string) : str_le a b -> a <> b -> str_lt a b.
Proof.
  unfold str_le, str_lt, String.leb, String.ltb. intros Hle Hne.
  destruct (String.compare a b) eqn:E; try easy.
  now apply String.compare_eq_iff in E.
Qed.

(** ** [Repositories] *)

Lemma squeeze_cons2 (x y : string) (rest : list string) :
  squeeze (x :: y :: rest)
  = if x =? y then squeeze (y :: rest) else x :: squeeze (y :: rest).
Proof. reflexivity. Qed.

Lemma squeeze_head (x : string) (l : list string) :
  exists tl, squeeze (x :: l) = x :: tl.
Proof.
  revert x. induction l as [| y l IH]; intros x.
  - now exists [].
  - rewrite squeeze_cons2. destruct (String.eqb_spec x y) as [-> | _].
    + apply IH.
    + now eexists.
Qed.

Lemma squeeze_In (z : string) (l : list string) :
  In z (squeeze l) <-> In z l.
Proof.
  induction l as [| x [| y rest] IH]; [reflexivity | reflexivity |].
  rewrite squeeze_cons2. destruct (String.eqb_spec x y) as [-> | _].
  - rewrite IH. cbn. tauto.
  - cbn [In] in *. rewrite IH. tauto.
Qed.

Lemma squeeze_Sorted (l : list string) :
  Sorted str_le l -> Sorted str_lt (squeeze l).
Proof.
  induction l as [| x [| y rest] IH]; intros H.
  - constructor.
  - repeat constructor.
  - apply Sorted_inv in H as [Htl Hhd]. apply HdRel_inv in Hhd.
    rewrite squeeze_cons2. destruct (String.eqb_spec x y) as [-> | Hne].
    + now apply IH.
    + constructor; [now apply IH |].
      destruct (squeeze_head y rest) as [tl ->].
      constructor. now apply str_le_neq_lt.
Qed.

Lemma StronglySorted_lt_NoDup (l : list string) :
  StronglySorted str_lt l -> NoDup l.
Proof.
  induction 1 as [| x l _ IH Hall]; constructor; [| exact IH].
  intros Hin. rewrite Forall_forall in Hall.
  exact (str_lt_irrefl x (Hall x Hin)).
Qed.

Lemma parsed_names_cons (imports : Imports) (image : images.Image)
    (rest : list images.Image) :
  parsed_names imports (image :: rest)
  = match docker_ParseNormalizedNamed imports (images.Name image) with
    | Ok ref => docker.Name ref :: parsed_names imports rest
    | Err _ => parsed_names imports rest
    end.
Proof.
  unfold parsed_names; cbn.
  now destruct (docker_ParseNormalizedNamed imports (images.Name image)).
Qed.

(** The loop of [Repositories], entered with a list that ends in [l]. *)
Lemma Repositories_loop (imports : Imports) (images : list images.Image) :
  forall (acc : list string) (l : string),
    fold_left (Repositories_step imports) images (acc ++ [l])%list
    = (acc ++ squeeze (l :: parsed_names imports images))%list.
Proof.
  induction images as [| image rest IH]; intros acc l; [reflexivity |].
  cbn [fold_left]. rewrite parsed_names_cons. unfold Repositories_step at 2.
  destruct (docker_ParseNormalizedNamed imports (images.Name image))
    as [ref | _]; [| apply IH].
  rewrite last_last, length_app, Nat.add_comm. cbn [List.length Nat.add Nat.ltb Nat.leb andb].
  rewrite squeeze_cons2.
  destruct (String.eqb_spec l (docker.Name ref)) as [<- | Hne].
  - apply IH.
  - rewrite IH, <- app_assoc. reflexivity.
Qed.

Lemma Repositories_loop_nil (imports : Imports) (images : list images.Image) :
  fold_left (Repositories_step imports) images []
  = squeeze (parsed_names imports images).
Proof.
  induction images as [| image rest IH]; [reflexivity |].
  cbn [fold_left]. rewrite parsed_names_cons. unfold Repositories_step at 2.
  destruct (docker_ParseNormalizedNamed imports (images.Name image))
    as [ref | _]; [| apply IH].
  cbn [List.length Nat.ltb Nat.leb andb].
  exact (Repositories_loop imports rest [] (docker.Name ref)).
Qed.

Lemma Repositories_run (imports : Imports) (r : containerdRegistry) (w : World) :
  Repositories imports r w
  = (logged (CallList []) w,
     Returns
       match ImageService_List (client r) [] with
       | Ok images =>
         ociregistry.SliceIter (squeeze (parsed_names imports images))
       | Err err => ociregistry.ErrorIter err
       end).
Proof.
  unfold Repositories, List_, bind, record, ret.
  destruct (ImageService_List (client r) []) as [images | err];
    [| reflexivity].
  now rewrite Repositories_loop_nil.
Qed.

(** What the loop of [Repositories] computes: the repository names of the
    listing in the listing's order, each run of equal neighbours once; the
    names emitted are the names that occur.  When the parsed names come in
    non-decreasing order, each is emitted exactly once and the output is
    strictly increasing. *)
Theorem Repositories_squeezes_neighbours :
  forall (imports : Imports) (r : containerdRegistry)
         (images : list images.Image) (w : World),
    ImageService_List (client r) [] = Ok images ->
    Repositories imports r w
    = (logged (CallList []) w,
       Returns (ociregistry.SliceIter (squeeze (parsed_names imports images))))
    /\ (forall repo : string,
           In repo (squeeze (parsed_names imports images))
           <-> In repo (parsed_names imports images))
    /\ (Sorted str_le (parsed_names imports images) ->
        StronglySorted str_lt (squeeze (parsed_names imports images))
        /\ NoDup (squeeze (parsed_names imports images))).
Proof.
  intros imports r images w H. split; [| split].
  - rewrite Repositories_run, H. reflexivity.
  - intros repo. apply squeeze_In.
  - intros Hs.
    assert (Hss : StronglySorted str_lt (squeeze (parsed_names imports images))).
    { apply Sorted_StronglySorted.
      - intros a b c. apply str_lt_trans.
      - now apply squeeze_Sorted. }
    split; [exact Hss | now apply StronglySorted_lt_NoDup].
Qed.

Lemma Repositories_squeezes_neighbours_witness :
  Repositories Mock.imports (Mock.registry Mock.tidyCatalog []) World0
  = (logged (CallList []) World0,
     Returns (ociregistry.SliceIter ["docker.io/a/b"; "docker.io/c/d"]))
  /\ StronglySorted str_lt ["docker.io/a/b"; "docker.io/c/d"]
  /\ NoDup ["docker.io/a/b"; "docker.io/c/d"].
Proof.
  destruct (Repositories_squeezes_neighbours
              Mock.imports (Mock.registry Mock.tidyCatalog []) Mock.tidyCatalog
              World0 eq_refl) as (Hrun & _ & Hsorted).
  split; [exact Hrun |].
  apply Hsorted. repeat constructor.
Defined.

(** C5.  [Repositories] on a catalog that is in the order of its names,
    where two names stand for the same repository and the name between them
    for another one.  The check against the last name emitted, which is
    there to dedupe, does not see the earlier occurrence: the repository
    comes out twice, and the output is not in order. *)
Lemma Repositories_repeats_a_repository :
  Sorted str_le (map images.Name Mock.shortNamesCatalog)
  /\ Repositories Mock.imports (Mock.registry Mock.shortNamesCatalog []) World0
     = (logged (CallList []) World0,
        Returns (ociregistry.SliceIter
                   ["docker.io/library/ubuntu"; "docker.io/foo/bar";
                    "docker.io/library/ubuntu"]))
  /\ ~ NoDup ["docker.io/library/ubuntu"; "docker.io/foo/bar";
              "docker.io/library/ubuntu"]
  /\ ~ Sorted str_le ["docker.io/library/ubuntu"; "docker.io/foo/bar";
                      "docker.io/library/ubuntu"].
Proof.
  split; [repeat constructor |]. split; [reflexivity |]. split.
  - intros H. apply NoDup_cons_iff in H as [Hnotin _].
    apply Hnotin. right. now left.
  - intros H. apply Sorted_inv in H as [_ Hhd]. apply HdRel_inv in Hhd.
    discriminate Hhd.
Qed.

(** ** [Tags] *)

Lemma parsed_tags_cons (imports : Imports) (image : images.Image)
    (rest : list images.Image) :
  parsed_tags imports (image :: rest)
  = (match docker_Parse imports (images.Name image) with
     | Ok (docker.taggedReference _ tag) => [tag]
     | _ => []
     end ++ parsed_tags imports rest)%list.
Proof. reflexivity. Qed.

Lemma Tags_loop (imports : Imports) (images : list images.Image) :
  forall tags : list string,
    fold_left (Tags_step imports) images tags
    = (tags ++ parsed_tags imports images)%list.
Proof.
  induction images as [| image rest IH]; intros tags.
  - cbn. now rewrite app_nil_r.
  - cbn [fold_left]. rewrite IH, parsed_tags_cons. unfold Tags_step.
    destruct (docker_Parse imports (images.Name image)) as [[] | _]; cbn;
      now rewrite <- ?app_assoc.
Qed.

Lemma Tags_run (imports : Imports) (r : containerdRegistry) (repo : string)
    (w : World) :
  Tags imports r repo w
  = (logged (CallList [Tags_filter imports repo]) w,
     Returns
       match ImageService_List (client r) [Tags_filter imports repo] with
       | Ok images => ociregistry.SliceIter (parsed_tags imports images)
       | Err err => ociregistry.ErrorIter err
       end).
Proof.
  unfold Tags, List_, bind, record, ret.
  destruct (ImageService_List (client r) [Tags_filter imports repo])
    as [images | err]; [| reflexivity].
  now rewrite Tags_loop.
Qed.

Lemma parsed_tags_In (imports : Imports) (images : list images.Image)
    (tag : string) :
  In tag (parsed_tags imports images)
  <-> exists (image : images.Image) (ref : docker.Reference),
        In image images
        /\ docker_Parse imports (images.Name image) = Ok ref
        /\ docker.Digested ref = None
        /\ docker.Tagged ref = Some tag.
Proof.
  unfold parsed_tags. rewrite in_flat_map. split.
  - intros (image & Hin & Htag). exists image.
    destruct (docker_Parse imports (images.Name image)) as [[] | err];
      try contradiction.
    destruct Htag as [<- | []]. eexists.
    split; [exact Hin |]. split; [reflexivity |]. split; reflexivity.
  - intros (image & ref & Hin & Hp & Hd & Ht). exists image.
    split; [exact Hin |]. rewrite Hp.
    destruct ref; try discriminate. injection Ht as ->. now left.
Qed.

Lemma special_backslash : special backslash = true.
Proof. reflexivity. Qed.

(** [regexp.QuoteMeta] makes a pattern that stands for the string it was
    given. *)
Lemma literal_of_QuoteMeta (s : string) :
  literal_of (regexp_QuoteMeta s ++ ":") = Some (s ++ ":").
Proof.
  induction s as [| c s IH]; [reflexivity |].
  cbn [regexp_QuoteMeta]. destruct (special c) eqn:Hc.
  - cbn [String.append literal_of].
    replace (Ascii.eqb backslash backslash) with true by reflexivity.
    rewrite Hc, IH. reflexivity.
  - cbn [String.append literal_of].
    destruct (Ascii.eqb_spec c backslash) as [-> | _].
    + rewrite special_backslash in Hc. discriminate.
    + rewrite Hc, IH. reflexivity.
Qed.

Lemma prefix_iff (p s : string) :
  prefix p s = true <-> exists rest, s = p ++ rest.
Proof.
  revert s. induction p as [| a p IH]; intros s.
  - destruct s; cbn; split; eauto.
  - destruct s as [| b s]; cbn.
    + split; [discriminate | intros [rest H]; discriminate].
    + destruct (ascii_dec a b) as [<- | Hne].
      * rewrite IH. split; intros [rest H]; exists rest; congruence.
      * split; [discriminate | intros [rest H]; congruence].
Qed.

Lemma Tags_pattern_matches (repo name : string) :
  regexp_MatchString (Tags_pattern repo) name
  = Some (prefix (repo ++ ":") name).
Proof.
  unfold Tags_pattern, regexp_MatchString. cbn [String.append].
  now rewrite literal_of_QuoteMeta.
Qed.

Lemma append_assoc (a b c : string) : (a ++ b) ++ c = a ++ b ++ c.
Proof. induction a as [| x a IH]; cbn; [reflexivity | now rewrite IH]. Qed.

(** What the loop of [Tags] computes: in the order of the listing the
    catalog returns for its filter, the tag of every entry whose name parses
    as tagged and not digested, and nothing else: a digested entry is never
    emitted, and every tag emitted is the tag of a listed entry.  The pattern
    of the filter matches the names that begin with [repo:], and no others.
    [Tags] does not compare the parsed repository of an entry with [repo]. *)
Theorem Tags_lists_tagged_entries :
  forall (imports : Imports) (r : containerdRegistry) (repo : string)
         (images : list images.Image) (w : World),
    ImageService_List (client r) [Tags_filter imports repo] = Ok images ->
    Tags imports r repo w
    = (logged (CallList [Tags_filter imports repo]) w,
       Returns (ociregistry.SliceIter (parsed_tags imports images)))
    /\ (forall tag : string,
           In tag (parsed_tags imports images)
           <-> exists (image : images.Image) (ref : docker.Reference),
                 In image images
                 /\ docker_Parse imports (images.Name image) = Ok ref
                 /\ docker.Digested ref = None
                 /\ docker.Tagged ref = Some tag)
    /\ (forall name : string,
           regexp_MatchString (Tags_pattern repo) name = Some true
           <-> exists rest : string, name = repo ++ ":" ++ rest).
Proof.
  intros imports r repo images w H. split; [| split].
  - rewrite Tags_run, H. reflexivity.
  - intros tag. apply parsed_tags_In.
  - intros name. rewrite Tags_pattern_matches. split.
    + intros Hm. injection Hm as Hm. apply prefix_iff in Hm as [rest ->].
      exists rest. apply append_assoc.
    + intros [rest ->]. f_equal. apply prefix_iff. exists rest.
      symmetry. apply append_assoc.
Qed.

Lemma Tags_lists_tagged_entries_witness :
  Tags Mock.imports (Mock.registry Mock.localCatalog []) "foo" World0
  = (logged (CallList [Tags_filter Mock.imports "foo"]) World0,
     Returns (ociregistry.SliceIter ["v1"]))
  /\ regexp_MatchString (Tags_pattern "foo") "foo:v1" = Some true
  /\ regexp_MatchString (Tags_pattern "foo") "foobar:v2" <> Some true.
Proof.
  destruct (Tags_lists_tagged_entries
              Mock.imports (Mock.registry Mock.localCatalog []) "foo"
              [Mock.image "foo:v1"] World0 eq_refl) as (Hrun & _ & Hpat).
  split; [exact Hrun |]. split.
  - apply Hpat. now exists "v1".
  - intros Hm. apply Hpat in Hm as [rest Hm]. discriminate Hm.
Defined.

(** C6.  [Tags] for the repository [localhost], on a catalog that holds an
    image of the registry host [localhost:5000].  The name of that image
    begins with [localhost:], so the listing returns it, and [Tags], which
    does not compare the parsed repository with the one asked for, emits its
    tag [v1]; the catalog has no entry [localhost:v1]. *)
Lemma Tags_emits_a_foreign_tag :
  Tags Mock.imports (Mock.registry Mock.localCatalog []) "localhost" World0
  = (logged (CallList [Tags_filter Mock.imports "localhost"]) World0,
     Returns (ociregistry.SliceIter ["v1"]))
  /\ ImageService_List (client (Mock.registry Mock.localCatalog []))
                       [Tags_filter Mock.imports "localhost"]
     = Ok [Mock.image "localhost:5000/foo:v1"]
  /\ ImageService_Get (client (Mock.registry Mock.localCatalog []))
                      ("localhost" ++ ":" ++ "v1")
     = Err Mock.ErrNotFound
  /\ ~ In ("localhost" ++ ":" ++ "v1") (map images.Name Mock.localCatalog).
Proof.
  split; [reflexivity |]. split; [reflexivity |]. split; [reflexivity |].
  cbn. intros [H | [H | [H | []]]]; discriminate H.
Qed.

(** * Further properties of the code *)

(** ** [validate] and the constructors *)

(** [validate] asks the store once and touches nothing but the size and the
    media type of the descriptor: it does not panic, opens no reader, and
    keeps the client, the digest and both reader fields.  When it fails, the
    error is the store's and the reader is as it was. *)
Theorem validate_frame :
  forall (br : containerdBlobReader) (w : World),
  exists (br' : containerdBlobReader) (err : option error),
    validate br w
    = (logged (CallInfo (ociregistry.Digest (desc br))) w, Returns (br', err))
    /\ br_client br' = br_client br
    /\ readerAt br' = readerAt br
    /\ reader br' = reader br
    /\ ociregistry.Digest (desc br') = ociregistry.Digest (desc br)
    /\ (forall e : error,
           err = Some e ->
           br' = br
           /\ ContentStore_Info (br_client br) (ociregistry.Digest (desc br))
              = Err e).
Proof.
  intros br w.
  destruct (ContentStore_Info (br_client br) (ociregistry.Digest (desc br)))
    as [info | e] eqn:E.
  - exists (set_desc br (completed info (desc br))), None.
    split; [now apply validate_Ok |]. repeat split; discriminate.
  - exists br, (Some e).
    split; [now apply validate_Err |]. repeat split; congruence.
Qed.

(** What a successful [validate] leaves in the descriptor.  A size that is
    not 0 stays, also when the store has another size for the digest; a
    media type that is not empty stays.  Afterwards the media type is never
    empty, and the size is 0 only if it was 0 and the store says 0 too. *)
Theorem validate_keeps_what_is_set :
  forall (br br' : containerdBlobReader) (w w' : World),
    validate br w = (w', Returns (br', None)) ->
    (ociregistry.Size (desc br) <> 0%Z ->
     ociregistry.Size (desc br') = ociregistry.Size (desc br))
    /\ (ociregistry.MediaType (desc br) <> EmptyString ->
        ociregistry.MediaType (desc br') = ociregistry.MediaType (desc br))
    /\ ociregistry.MediaType (desc br') <> EmptyString
    /\ (ociregistry.Size (desc br') = 0%Z ->
        ociregistry.Size (desc br) = 0%Z
        /\ ContentStore_Info (br_client br) (ociregistry.Digest (desc br))
           = Ok {| content.Size := 0 |}).
Proof.
  intros br br' w w' H.
  destruct (ContentStore_Info (br_client br) (ociregistry.Digest (desc br)))
    as [info | e] eqn:E.
  - rewrite (validate_Ok _ _ _ E) in H. injection H as _ <-.
    destruct br as [c [mt dg sz] ra rd]; destruct info as [isz].
    unfold completed; cbn in *.
    split; [| split; [| split]].
    + intros Hs. apply Z.eqb_neq in Hs. now rewrite Hs.
    + intros Hm. apply String.eqb_neq in Hm. now rewrite Hm.
    + destruct (String.eqb_spec mt EmptyString); [discriminate | assumption].
    + destruct (Z.eqb_spec sz 0) as [-> | Hs]; intros H0; [| contradiction].
      split; [reflexivity |]. now rewrite H0.
  - rewrite (validate_Err _ _ _ E) in H. discriminate.
Qed.

Lemma validate_keeps_what_is_set_witness :
  validate Mock.mismatched World0
  = (logged (CallInfo Mock.sha) World0, Returns (Mock.mismatched, None))
  /\ ociregistry.Size (desc Mock.mismatched) = 7%Z
  /\ ociregistry.MediaType (desc Mock.mismatched) = "text/plain"
  /\ ContentStore_Info (br_client Mock.mismatched) Mock.sha
     = Ok {| content.Size := 42 |}.
Proof.
  destruct (validate_keeps_what_is_set
              Mock.mismatched Mock.mismatched World0
              (logged (CallInfo Mock.sha) World0) eq_refl)
    as (Hsize & Hmt & _ & _).
  split; [reflexivity |].
  split; [apply Hsize; discriminate |].
  split; [apply Hmt; discriminate | reflexivity].
Defined.

(** The constructor never returns an error: when [validate] fails, the
    [Close] before [return nil, err] panics, so the outcome is a reader or a
    panic, and nothing is opened either way.  [GetBlob] inherits this. *)
Theorem constructor_never_returns_an_error :
  forall (c : Client) (d : ociregistry.Descriptor) (w : World),
    (exists br : containerdBlobReader,
        snd (newContainerdBlobReaderFromDescriptor c d w) = Returns (Ok br))
    \/ snd (newContainerdBlobReaderFromDescriptor c d w) = Panics nilDereference.
Proof.
  intros c d w.
  destruct (ContentStore_Info c (ociregistry.Digest d)) as [info | e] eqn:E.
  - left. rewrite (newContainerdBlobReaderFromDescriptor_Ok _ _ _ _ E).
    now eexists.
  - right. now rewrite (newContainerdBlobReaderFromDescriptor_Err _ _ _ _ E).
Qed.

(** ** Store readers: opened once, released by [Close] *)

Lemma wf_logged (c : Call) (w : World) : wf (logged c w) <-> wf w.
Proof. reflexivity. Qed.

Lemma wf_opening (w : World) : wf w -> wf (opening w).
Proof.
  unfold wf, opening; cbn. intros H. constructor; [lia |].
  eapply Forall_impl; [| exact H]. cbn. lia.
Qed.

Lemma wf_closing (rid : nat) (w : World) : wf w -> wf (closing rid w).
Proof.
  unfold wf, closing, released; cbn. intros H.
  rewrite Forall_forall in *. intros x Hx.
  apply filter_In in Hx as [Hx _]. now apply H.
Qed.

(** Closing the reader just opened gives back the readers that were open. *)
Lemma released_fresh (w : World) :
  wf w -> released (fresh w) (fresh w :: opened w) = opened w.
Proof.
  unfold wf, released. intros H. cbn. rewrite Nat.eqb_refl. cbn.
  induction (opened w) as [| x l IH]; [reflexivity |].
  apply Forall_cons_iff in H as [Hx Hl]. cbn.
  destruct (Nat.eqb_spec x (fresh w)) as [-> | _]; [lia |].
  cbn. now rewrite IH.
Qed.

Lemma released_twice (rid : nat) (l : list nat) :
  released rid (released rid l) = released rid l.
Proof.
  unfold released. induction l as [| x l IH]; [reflexivity |]. cbn.
  destruct (negb (x =? rid)%nat) eqn:E; cbn; [rewrite E |]; now rewrite IH.
Qed.

Lemma released_not_In (rid : nat) (l : list nat) : ~ In rid (released rid l).
Proof.
  unfold released. intros H. apply filter_In in H as [_ H].
  now rewrite Nat.eqb_refl in H.
Qed.

(** One [Read] of the section reader.  It opens nothing and asks the store
    for no reader.  At its limit it answers [io.EOF] without a call.  Below
    its limit it answers what the store's [ReadAt] answers for the bytes up
    to the limit, cut to the length asked for, and moves on by the bytes that
    came. *)
Lemma Reader_Read_run (client : Client) (rd : content.Reader) (n : nat)
    (w : World) :
  exists (w' : World) (rd' : content.Reader) (p : list byte)
         (err : option error),
    Reader_Read client rd n w = (w', Returns (rd', p, err))
    /\ opened w' = opened w
    /\ fresh w' = fresh w
    /\ (forall d : digest.Digest,
           In (CallReaderAt d) (calls w') -> In (CallReaderAt d) (calls w))
    /\ content.src rd' = content.src rd
    /\ content.limit rd' = content.limit rd
    /\ content.off rd' = content.off rd + List.length p
    /\ List.length p <= n
    /\ List.length p <= content.limit rd - content.off rd
    /\ (content.limit rd <= content.off rd ->
        p = [] /\ err = Some io_EOF /\ w' = w)
    /\ (content.off rd < content.limit rd ->
        p = firstn (Nat.min n (content.limit rd - content.off rd))
                   (fst (ContentStore_ReadAt client (content.src rd)
                           (content.off rd)
                           (Nat.min n (content.limit rd - content.off rd))))
        /\ err = snd (ContentStore_ReadAt client (content.src rd)
                        (content.off rd)
                        (Nat.min n (content.limit rd - content.off rd)))).
Proof.
  unfold Reader_Read.
  destruct rd as [ra o lim]; cbn [content.src content.off content.limit].
  destruct (Nat.leb_spec lim o) as [Hle | Hlt].
  - exists w, {| content.src := ra; content.off := o; content.limit := lim |},
           [], (Some io_EOF).
    cbn [content.src content.off content.limit List.length].
    repeat split; try reflexivity; try lia; try tauto.
  - unfold bind, record, ret. cbn beta iota.
    destruct (ContentStore_ReadAt client ra o (Nat.min n (lim - o)))
      as [got e].
    do 4 eexists. split; [reflexivity |].
    cbn [content.src content.off content.limit fst snd opened fresh logged].
    assert (Hlen : List.length (firstn (Nat.min n (lim - o)) got)
                   <= Nat.min n (lim - o))
      by (rewrite length_firstn; lia).
    repeat split; try reflexivity; try lia.
    unfold logged; cbn [calls]. intros d Hin.
    apply in_app_or in Hin as [Hin | [Hin | []]];
      [exact Hin | discriminate Hin].
Qed.

Lemma ensureReaderAt_opens (br : containerdBlobReader) (b : content.Blob)
    (w : World) :
  readerAt br = None ->
  ContentStore_ReaderAt (br_client br) (desc br) = Ok b ->
  ensureReaderAt br w
  = (opening (logged (CallReaderAt (ociregistry.Digest (desc br))) w),
     Returns (set_readerAt br (Some {| content.id := fresh w; content.blob := b |}),
              Ok {| content.id := fresh w; content.blob := b |})).
Proof.
  intros Hra Hb. unfold ensureReaderAt, ReaderAt, bind, record, ret.
  rewrite Hra, Hb. reflexivity.
Qed.

Lemma ensureReaderAt_fails (br : containerdBlobReader) (e : error) (w : World) :
  readerAt br = None ->
  ContentStore_ReaderAt (br_client br) (desc br) = Err e ->
  ensureReaderAt br w
  = (logged (CallReaderAt (ociregistry.Digest (desc br))) w, Returns (br, Err e)).
Proof.
  intros Hra Hb. unfold ensureReaderAt, ReaderAt, bind, record, ret.
  rewrite Hra, Hb. destruct br; cbn in *; subst. reflexivity.
Qed.

Lemma ensureReader_opens (br : containerdBlobReader) (b : content.Blob)
    (w : World) :
  readerAt br = None ->
  reader br = None ->
  ContentStore_ReaderAt (br_client br) (desc br) = Ok b ->
  ensureReader br w
  = (opening (logged (CallReaderAt (ociregistry.Digest (desc br))) w),
     Returns
       (set_reader
          (set_readerAt br (Some {| content.id := fresh w; content.blob := b |}))
          (Some (content.NewReader {| content.id := fresh w; content.blob := b |})),
        Ok (content.NewReader {| content.id := fresh w; content.blob := b |}))).
Proof.
  intros Hra Hrd Hb. unfold ensureReader. rewrite Hrd. unfold bind.
  rewrite (ensureReaderAt_opens _ b) by assumption. reflexivity.
Qed.

Lemma Read_first :
  forall (br : containerdBlobReader) (b : content.Blob) (n : nat) (w : World),
    readerAt br = None ->
    reader br = None ->
    ContentStore_ReaderAt (br_client br) (desc br) = Ok b ->
    exists (w' : World) (br' : containerdBlobReader) (rd' : content.Reader)
           (p : list byte) (err : option error),
      Read br n w = (w', Returns (br', p, err))
      /\ opened w' = fresh w :: opened w
      /\ fresh w' = S (fresh w)
      /\ (forall d : digest.Digest,
             In (CallReaderAt d) (calls w') ->
             In (CallReaderAt d) (calls w) \/ d = ociregistry.Digest (desc br))
      /\ readerAt br' = Some {| content.id := fresh w; content.blob := b |}
      /\ desc br' = desc br
      /\ reader br' = Some rd'
      /\ content.off rd' = List.length p
      /\ List.length p <= n
      /\ (content.data b = [] -> p = [] /\ err = Some io_EOF)
      /\ (content.data b <> [] ->
          p = firstn (Nat.min n (List.length (content.data b)))
                     (fst (ContentStore_ReadAt (br_client br)
                             {| content.id := fresh w; content.blob := b |} 0
                             (Nat.min n (List.length (content.data b)))))
          /\ err = snd (ContentStore_ReadAt (br_client br)
                          {| content.id := fresh w; content.blob := b |} 0
                          (Nat.min n (List.length (content.data b))))).
Proof.
  intros br b n w Hra Hrd Hb.
  set (ra := {| content.id := fresh w; content.blob := b |}).
  set (w1 := opening (logged (CallReaderAt (ociregistry.Digest (desc br))) w)).
  destruct (Reader_Read_run (br_client br) (content.NewReader ra) n w1)
    as (w' & rd' & p & err & Hrun & Hop & Hfr & Hcalls & _ & _ & Hoff & Hn
        & _ & Heof & Hgot).
  exists w', (set_reader (set_readerAt br (Some ra)) (Some rd')), rd', p, err.
  unfold content.NewReader in Hoff, Heof, Hgot;
    cbn [content.src content.off content.limit content.blob ra] in Hoff, Heof, Hgot.
  rewrite Nat.sub_0_r in Hgot.
  split; [| repeat split].
  - unfold Read. unfold bind at 1.
    rewrite (ensureReader_opens _ b) by assumption. fold ra. fold w1.
    unfold bind.
    change (br_client
              (set_reader (set_readerAt br (Some ra))
                          (Some (content.NewReader ra))))
      with (br_client br).
    rewrite Hrun. reflexivity.
  - rewrite Hop. reflexivity.
  - rewrite Hfr. reflexivity.
  - intros d Hin. apply Hcalls in Hin. unfold w1, opening, logged in Hin.
    cbn [calls] in Hin. apply in_app_or in Hin as [Hin | [Hin | []]];
      [now left | right; congruence].
  - exact Hoff.
  - exact Hn.
  - apply Heof. rewrite H. cbn. lia.
  - apply Heof. rewrite H. cbn. lia.
  - apply Hgot. destruct (content.data b); [contradiction | cbn; lia].
  - apply Hgot. destruct (content.data b); [contradiction | cbn; lia].
Qed.

(** The first [Read] of a reader over a blob the store can open.  It opens
    one store reader, with the reader's descriptor, and keeps the
    descriptor.  For an empty blob it answers [io.EOF].  Otherwise it asks
    the store's [ReadAt] for the first bytes of the blob, [n] of them or as
    many as the blob has, and returns what the store answers: the bytes that
    came, at most [n], and the store's error.  The reader stands after the
    bytes that came. *)
Theorem Read_opens_on_first_use :
  forall (br : containerdBlobReader) (b : content.Blob) (n : nat) (w : World),
    readerAt br = None ->
    reader br = None ->
    ContentStore_ReaderAt (br_client br) (desc br) = Ok b ->
    exists (w' : World) (br' : containerdBlobReader) (rd' : content.Reader)
           (p : list byte) (err : option error),
      Read br n w = (w', Returns (br', p, err))
      /\ opened w' = fresh w :: opened w
      /\ (forall d : digest.Digest,
             In (CallReaderAt d) (calls w') ->
             In (CallReaderAt d) (calls w) \/ d = ociregistry.Digest (desc br))
      /\ readerAt br' = Some {| content.id := fresh w; content.blob := b |}
      /\ desc br' = desc br
      /\ reader br' = Some rd'
      /\ content.off rd' = List.length p
      /\ List.length p <= n
      /\ (content.data b = [] -> p = [] /\ err = Some io_EOF)
      /\ (content.data b <> [] ->
          p = firstn (Nat.min n (List.length (content.data b)))
                     (fst (ContentStore_ReadAt (br_client br)
                             {| content.id := fresh w; content.blob := b |} 0
                             (Nat.min n (List.length (content.data b)))))
          /\ err = snd (ContentStore_ReadAt (br_client br)
                          {| content.id := fresh w; content.blob := b |} 0
                          (Nat.min n (List.length (content.data b))))).
Proof.
  intros br b n w Hra Hrd Hb.
  destruct (Read_first br b n w Hra Hrd Hb)
    as (w' & br' & rd' & p & err & Hrun & Hop & _ & Hrest).
  exists w', br', rd', p, err.
  split; [exact Hrun |]. split; [exact Hop | exact Hrest].
Qed.

(** On a store that works the first 10 bytes come; on one whose reads break
    off, the 4 bytes that came and the store's error. *)
Lemma Read_opens_on_first_use_witness :
  (exists (w' : World) (br' : containerdBlobReader),
      Read Mock.manifestReader 10 World0
      = (w', Returns (br', firstn 10 Mock.manifest, None))
      /\ opened w' = [0]
      /\ readerAt br' = Some Mock.openReaderAt)
  /\ (exists (w' : World) (br' : containerdBlobReader),
         Read Mock.flakyReader 10 World0
         = (w', Returns (br', firstn 4 Mock.manifest, Some Mock.ErrUnavailable))
         /\ opened w' = [0]).
Proof.
  split.
  - destruct (Read_opens_on_first_use
                Mock.manifestReader Mock.manifestBlob 10 World0
                eq_refl eq_refl eq_refl)
      as (w' & br' & rd' & p & err & Hrun & Hopen & _ & Hra & _ & _ & _ & _
          & _ & Hgot).
    destruct Hgot as [-> ->]; [discriminate |].
    exists w', br'. split; [exact Hrun |]. split; [exact Hopen | exact Hra].
  - destruct (Read_opens_on_first_use
                Mock.flakyReader Mock.manifestBlob 10 World0
                eq_refl eq_refl eq_refl)
      as (w' & br' & rd' & p & err & Hrun & Hopen & _ & _ & _ & _ & _ & _
          & _ & Hgot).
    destruct Hgot as [-> ->]; [discriminate |].
    exists w', br'. split; [exact Hrun | exact Hopen].
Defined.

(** A [Read] of a reader that has its section reader.  No reader is opened
    and the store is not asked for one; the descriptor and the store reader
    stay.  At the limit the answer is [io.EOF], with no call to the store.
    Below the limit the answer is what the store's [ReadAt] answers at the
    reader's offset for the bytes up to the limit: the bytes that came, at
    most [n] and never past the limit, and the store's error.  The reader
    moves on by the bytes that came. *)
Theorem Read_continues :
  forall (br : containerdBlobReader) (rd : content.Reader) (n : nat)
         (w : World),
    reader br = Some rd ->
    exists (w' : World) (br' : containerdBlobReader) (rd' : content.Reader)
           (p : list byte) (err : option error),
      Read br n w = (w', Returns (br', p, err))
      /\ opened w' = opened w
      /\ fresh w' = fresh w
      /\ (forall d : digest.Digest,
             In (CallReaderAt d) (calls w') -> In (CallReaderAt d) (calls w))
      /\ readerAt br' = readerAt br
      /\ desc br' = desc br
      /\ reader br' = Some rd'
      /\ content.off rd' = content.off rd + List.length p
      /\ List.length p <= n
      /\ List.length p <= content.limit rd - content.off rd
      /\ (content.limit rd <= content.off rd ->
          p = [] /\ err = Some io_EOF /\ w' = w)
      /\ (content.off rd < content.limit rd ->
          p = firstn (Nat.min n (content.limit rd - content.off rd))
                     (fst (ContentStore_ReadAt (br_client br) (content.src rd)
                             (content.off rd)
                             (Nat.min n (content.limit rd - content.off rd))))
          /\ err = snd (ContentStore_ReadAt (br_client br) (content.src rd)
                          (content.off rd)
                          (Nat.min n (content.limit rd - content.off rd)))).
Proof.
  intros br rd n w Hrd.
  destruct (Reader_Read_run (br_client br) rd n w)
    as (w' & rd' & p & err & Hrun & Hop & Hfr & Hcalls & _ & _ & Hoff & Hn
        & Hlim & Heof & Hgot).
  exists w', (set_reader br (Some rd')), rd', p, err.
  split.
  { unfold Read, ensureReader. rewrite Hrd. unfold bind, ret.
    rewrite Hrun. reflexivity. }
  split; [exact Hop |]. split; [exact Hfr |]. split; [exact Hcalls |].
  split; [reflexivity |]. split; [reflexivity |]. split; [reflexivity |].
  split; [exact Hoff |]. split; [exact Hn |]. split; [exact Hlim |].
  split; [exact Heof | exact Hgot].
Qed.

Lemma Read_continues_witness :
  exists (w' : World) (br' : containerdBlobReader) (rd' : content.Reader),
    Read Mock.readingReader 5 World0
    = (w', Returns (br', firstn 5 (skipn 10 Mock.manifest), None))
    /\ opened w' = []
    /\ reader br' = Some rd'
    /\ content.off rd' = 15.
Proof.
  destruct (Read_continues
              Mock.readingReader
              {| content.src := Mock.openReaderAt; content.off := 10;
                 content.limit := 100 |}
              5 World0 eq_refl)
    as (w' & br' & rd' & p & err & Hrun & Hopen & _ & _ & _ & _ & Hrd & Hoff
        & _ & _ & _ & Hgot).
  destruct Hgot as [-> ->]; [cbn; lia |].
  exists w', br', rd'.
  split; [exact Hrun |]. split; [exact Hopen |]. split; [exact Hrd |].
  rewrite Hoff. reflexivity.
Defined.

Lemma Read_fails (br : containerdBlobReader) (e : error) (n : nat) (w : World) :
  readerAt br = None ->
  reader br = None ->
  ContentStore_ReaderAt (br_client br) (desc br) = Err e ->
  Read br n w
  = (logged (CallReaderAt (ociregistry.Digest (desc br))) w,
     Returns (br, [], Some e)).
Proof.
  intros Hra Hrd Hb. unfold Read, ensureReader. rewrite Hrd.
  unfold bind. rewrite (ensureReaderAt_fails _ e) by assumption.
  reflexivity.
Qed.

(** A first [Read] when the store cannot open the blob: the store's error
    comes back with no bytes, nothing is open, and the reader is as it was,
    so the next [Read] asks the store again. *)
Theorem Read_store_failure :
  forall (br : containerdBlobReader) (e : error) (n : nat) (w : World),
    readerAt br = None ->
    reader br = None ->
    ContentStore_ReaderAt (br_client br) (desc br) = Err e ->
    Read br n w
    = (logged (CallReaderAt (ociregistry.Digest (desc br))) w,
       Returns (br, [], Some e)).
Proof. exact Read_fails. Qed.

Lemma Read_store_failure_witness :
  Read {| br_client := Mock.downClient; desc := desc Mock.complete;
          readerAt := None; reader := None |} 10 World0
  = (logged (CallReaderAt Mock.sha) World0,
     Returns ({| br_client := Mock.downClient; desc := desc Mock.complete;
                 readerAt := None; reader := None |},
              [], Some Mock.ErrUnavailable)).
Proof.
  apply (Read_store_failure
           {| br_client := Mock.downClient; desc := desc Mock.complete;
              readerAt := None; reader := None |}
           Mock.ErrUnavailable 10 World0); reflexivity.
Defined.

(** [Close] on a reader that has a store reader, called twice: neither
    call panics; each goes to the store's [Close], since [Close] does not
    forget the store reader; the store reader is not among the open ones
    after the first call. *)
Theorem Close_twice :
  forall (br : containerdBlobReader) (ra : content.ReaderAt) (w : World),
    readerAt br = Some ra ->
    exists (w1 w2 : World) (answer1 answer2 : option error),
      Close br w = (w1, Returns answer1)
      /\ Close br w1 = (w2, Returns answer2)
      /\ ~ In (content.id ra) (opened w1)
      /\ opened w2 = opened w1
      /\ calls w2
         = (calls w ++ [CallClose (content.id ra); CallClose (content.id ra)])%list.
Proof.
  intros br ra w Hra. unfold Close, ReaderAt_Close. rewrite Hra.
  unfold bind, record, ret. cbn beta iota.
  do 4 eexists. split; [reflexivity |]. split; [reflexivity |].
  cbn [opened closing logged calls]. split; [apply released_not_In |].
  split; [apply released_twice |]. now rewrite <- app_assoc.
Qed.

Lemma Close_twice_witness :
  exists (w1 w2 : World) (answer1 answer2 : option error),
    Close Mock.readingReader {| opened := [0]; fresh := 1; calls := [] |}
    = (w1, Returns answer1)
    /\ Close Mock.readingReader w1 = (w2, Returns answer2)
    /\ opened w2 = []
    /\ calls w2 = [CallClose 0; CallClose 0].
Proof.
  destruct (Close_twice Mock.readingReader Mock.openReaderAt
                        {| opened := [0]; fresh := 1; calls := [] |} eq_refl)
    as (w1 & w2 & a1 & a2 & H1 & H2 & _ & Hop & Hcalls).
  exists w1, w2, a1, a2. split; [exact H1 |]. split; [exact H2 |].
  split; [| exact Hcalls].
  rewrite Hop. injection H1 as <- _. reflexivity.
Defined.

(** Read, then close: a reader is opened by the first [Read] and [Close]
    releases it; the readers that are open afterwards are the ones that were
    open before. *)
Theorem Read_then_Close_releases :
  forall (br : containerdBlobReader) (b : content.Blob) (n : nat) (w : World),
    wf w ->
    readerAt br = None ->
    reader br = None ->
    ContentStore_ReaderAt (br_client br) (desc br) = Ok b ->
    exists (w1 w2 : World) (br1 : containerdBlobReader) (p : list byte)
           (err : option error),
      Read br n w = (w1, Returns (br1, p, err))
      /\ Close br1 w1 = (w2, Returns (content.closeErr b))
      /\ opened w2 = opened w
      /\ wf w2.
Proof.
  intros br b n w Hwf Hra Hrd Hb.
  destruct (Read_first br b n w Hra Hrd Hb)
    as (w1 & br1 & rd1 & p & err & Hrun & Hop & Hfr & _ & Hra1 & _).
  exists w1, (closing (fresh w) (logged (CallClose (fresh w)) w1)), br1, p, err.
  split; [exact Hrun |].
  unfold Close, ReaderAt_Close. rewrite Hra1.
  unfold bind, record, ret. cbn beta iota.
  split; [reflexivity |]. cbn [opened closing logged content.id].
  rewrite Hop. split; [now apply released_fresh |].
  unfold wf. cbn [opened fresh closing logged]. rewrite Hop, Hfr.
  rewrite released_fresh by exact Hwf.
  eapply Forall_impl; [| exact Hwf]. cbn. lia.
Qed.

Lemma Read_then_Close_releases_witness :
  exists (w1 w2 : World) (br1 : containerdBlobReader) (p : list byte)
         (err : option error),
    Read Mock.manifestReader 10 World0 = (w1, Returns (br1, p, err))
    /\ Close br1 w1 = (w2, Returns None)
    /\ opened w2 = []
    /\ wf w2.
Proof.
  apply (Read_then_Close_releases Mock.manifestReader Mock.manifestBlob 10 World0);
    [constructor | reflexivity | reflexivity | reflexivity].
Defined.

(** ** [GetManifest]: the reader it opens, and the store's failures *)

(** [GetManifest] never leaves a store reader open: whether it returns a
    reader, returns an error or panics, the readers open afterwards are the
    ones that were open before. *)
Theorem GetManifest_releases_its_reader :
  forall (imports : Imports) (r : containerdRegistry) (repo : string)
         (dgst : digest.Digest) (w : World),
    wf w ->
    opened (fst (GetManifest imports r repo dgst w)) = opened w.
Proof.
  intros imports r repo dgst w Hwf.
  destruct (ContentStore_ReaderAt (client r)
              {| ociregistry.MediaType := EmptyString; ociregistry.Digest := dgst;
                 ociregistry.Size := 0 |}) as [b | err] eqn:E.
  - rewrite (GetManifest_run _ _ _ _ _ _ E).
    assert (H1 : forall c : Call,
               opened (closing (fresh w)
                         (logged (CallClose (fresh w))
                            (logged c (opening (logged (CallReaderAt dgst) w)))))
               = opened w).
    { intros c. cbn [opened closing logged opening fresh].
      now apply released_fresh. }
    assert (H2 : forall c c' : Call,
               opened (closing (fresh w)
                         (logged (CallClose (fresh w))
                            (logged c'
                               (logged c (opening (logged (CallReaderAt dgst) w))))))
               = opened w).
    { intros c c'. cbn [opened closing logged opening fresh].
      now apply released_fresh. }
    destruct (json_Decode imports (content.data b)) as [wr | e];
      [| apply H1].
    destruct (wrapper_MediaType wr =? EmptyString); [apply H1 |].
    destruct (ContentStore_Info (client r) dgst); apply H2.
  - rewrite (GetManifest_no_blob _ _ _ _ _ _ E). reflexivity.
Qed.

Lemma GetManifest_releases_its_reader_witness :
  opened (fst (GetManifest Mock.imports (Mock.registry [] Mock.manifests)
                           "a/b" Mock.sha World0)) = []
  /\ opened (fst (GetManifest Mock.imports {| client := Mock.halfClient |}
                              "a/b" Mock.sha World0)) = [].
Proof.
  split.
  - apply (GetManifest_releases_its_reader
             Mock.imports (Mock.registry [] Mock.manifests) "a/b" Mock.sha World0).
    constructor.
  - apply (GetManifest_releases_its_reader
             Mock.imports {| client := Mock.halfClient |} "a/b" Mock.sha World0).
    constructor.
Defined.

(** [GetManifest] for a digest the store cannot open: the store's error is
    returned after that one call; nothing is decoded, [Info] is not asked,
    nothing is open. *)
Theorem GetManifest_unknown_digest :
  forall (imports : Imports) (r : containerdRegistry) (repo : string)
         (dgst : digest.Digest) (err : error) (w : World),
    ContentStore_ReaderAt (client r)
      {| ociregistry.MediaType := EmptyString; ociregistry.Digest := dgst;
         ociregistry.Size := 0 |} = Err err ->
    GetManifest imports r repo dgst w
    = (logged (CallReaderAt dgst) w, Returns (Err err)).
Proof. intros. now apply GetManifest_no_blob. Qed.

Lemma GetManifest_unknown_digest_witness :
  GetManifest Mock.imports (Mock.registry [] []) "a/b" Mock.sha World0
  = (logged (CallReaderAt Mock.sha) World0, Returns (Err Mock.ErrNotFound)).
Proof.
  apply (GetManifest_unknown_digest
           Mock.imports (Mock.registry [] []) "a/b" Mock.sha Mock.ErrNotFound
           World0).
  reflexivity.
Defined.

(** [GetManifest] when the store opens the blob and the document declares a
    media type, but [Info] fails for the digest: the constructor's [Close]
    panics.  The deferred [Close] of the reader that was opened still runs. *)
Theorem GetManifest_Info_failure_panics :
  forall (imports : Imports) (r : containerdRegistry) (repo : string)
         (dgst : digest.Digest) (b : content.Blob) (wr : mediaTypeWrapper)
         (err : error) (w : World),
    ContentStore_ReaderAt (client r)
      {| ociregistry.MediaType := EmptyString; ociregistry.Digest := dgst;
         ociregistry.Size := 0 |} = Ok b ->
    json_Decode imports (content.data b) = Ok wr ->
    wrapper_MediaType wr <> EmptyString ->
    ContentStore_Info (client r) dgst = Err err ->
    exists w' : World,
      GetManifest imports r repo dgst w = (w', Panics nilDereference)
      /\ In (CallClose (fresh w)) (calls w')
      /\ ~ In (fresh w) (opened w').
Proof.
  intros imports r repo dgst b wr err w Hb Hd Hm Hi.
  rewrite (GetManifest_run _ _ _ _ _ _ Hb), Hd, Hi.
  apply String.eqb_neq in Hm. rewrite Hm.
  eexists. split; [reflexivity |]. split.
  - cbn [calls closing logged]. apply in_or_app. right. now left.
  - cbn [opened closing]. apply released_not_In.
Qed.

Lemma GetManifest_Info_failure_panics_witness :
  snd (GetManifest Mock.imports {| client := Mock.halfClient |}
                   "a/b" Mock.sha World0)
  = Panics nilDereference.
Proof.
  destruct (GetManifest_Info_failure_panics
              Mock.imports {| client := Mock.halfClient |} "a/b" Mock.sha
              Mock.manifestBlob
              {| wrapper_MediaType := "application/vnd.oci.image.manifest.v1+json" |}
              Mock.ErrNotFound World0 eq_refl eq_refl)
    as (w' & Hrun & _); [discriminate | reflexivity |].
  now rewrite Hrun.
Defined.

(** ** The [Resolve] methods *)

(** [ResolveBlob] panics on every input: for a digest the store knows, in
    its deferred [Close]; for any other, in the constructor's [Close].  Only
    the store's [Info] is asked. *)
Theorem ResolveBlob_always_panics :
  forall (r : containerdRegistry) (repo : string) (dgst : digest.Digest)
         (w : World),
    ResolveBlob r repo dgst w
    = (logged (CallInfo dgst) w, Panics nilDereference).
Proof.
  intros r repo dgst w.
  unfold ResolveBlob, GetBlob, newContainerdBlobReaderFromDigest, bind.
  destruct (ContentStore_Info (client r) dgst) as [info | err] eqn:E.
  - rewrite (newContainerdBlobReaderFromDescriptor_Ok _ _ info) by exact E.
    now apply deferred_Close_panics.
  - now rewrite (newContainerdBlobReaderFromDescriptor_Err _ _ err) by exact E.
Qed.

(** [ResolveTag] never returns a descriptor: when the catalog has no such
    entry it returns the catalog's error, and when it has one it panics.
    The catalog's [Get] is the only call. *)
Theorem ResolveTag_error_or_panic :
  forall (r : containerdRegistry) (repo tagName : string) (w : World),
    ResolveTag r repo tagName w
    = (logged (CallGet (repo ++ ":" ++ tagName)) w,
       match ImageService_Get (client r) (repo ++ ":" ++ tagName) with
       | Ok _ => Panics nilDereference
       | Err err => Returns (Err err)
       end).
Proof.
  intros r repo tagName w. unfold ResolveTag, bind. rewrite GetTag_run.
  destruct (ImageService_Get (client r) (repo ++ ":" ++ tagName));
    reflexivity.
Qed.

(** [ResolveManifest] is [GetManifest] with the reader turned into a panic:
    it ends in the same world, passes on an error or a panic of
    [GetManifest], and never returns a descriptor. *)
Theorem ResolveManifest_error_or_panic :
  forall (imports : Imports) (r : containerdRegistry) (repo : string)
         (dgst : digest.Digest) (w : World),
    ResolveManifest imports r repo dgst w
    = (fst (GetManifest imports r repo dgst w),
       match snd (GetManifest imports r repo dgst w) with
       | Returns (Ok _) => Panics nilDereference
       | Returns (Err err) => Returns (Err err)
       | Panics msg => Panics msg
       end).
Proof.
  intros imports r repo dgst w. unfold ResolveManifest, bind.
  destruct (GetManifest imports r repo dgst w) as [w' [[br | err] | msg]] eqn:E;
    cbn [fst snd]; try reflexivity.
  apply deferred_Close_panics.
  exact (GetManifest_unopened _ _ _ _ _ _ _ E).
Qed.

(** ** Composing the operations *)

(** A tag whose target the store cannot open: [GetTag] succeeds all the
    same, and the store's error comes out of the first [Read], with nothing
    open. *)
Theorem GetTag_then_Read_dangling :
  forall (r : containerdRegistry) (repo tagName : string) (img : images.Image)
         (e : error) (n : nat) (w : World),
    ImageService_Get (client r) (repo ++ ":" ++ tagName) = Ok img ->
    ContentStore_ReaderAt (client r) (images.Target img) = Err e ->
    exists (w1 w2 : World) (br : containerdBlobReader),
      GetTag r repo tagName w = (w1, Returns (Ok br))
      /\ Read br n w1 = (w2, Returns (br, [], Some e))
      /\ opened w2 = opened w.
Proof.
  intros r repo tagName img e n w Hget Hra.
  rewrite GetTag_run, Hget. do 3 eexists.
  split; [reflexivity |].
  rewrite (Read_fails _ e) by (reflexivity || exact Hra).
  split; reflexivity.
Qed.

Lemma GetTag_then_Read_dangling_witness :
  exists (w1 w2 : World) (br : containerdBlobReader),
    GetTag (Mock.registry [Mock.image "docker.io/a/b:v1"] [])
           "docker.io/a/b" "v1" World0
    = (w1, Returns (Ok br))
    /\ Read br 10 w1 = (w2, Returns (br, [], Some Mock.ErrNotFound))
    /\ opened w2 = [].
Proof.
  apply (GetTag_then_Read_dangling
           (Mock.registry [Mock.image "docker.io/a/b:v1"] [])
           "docker.io/a/b" "v1" (Mock.image "docker.io/a/b:v1")
           Mock.ErrNotFound 10 World0); reflexivity.
Defined.



(** ** More on [Repositories] and [Tags] *)

(** When the catalog's listing fails, [Repositories] and [Tags] give the
    iterator that holds that error, and no names. *)
Theorem listing_failure_is_passed_on :
  forall (imports : Imports) (r : containerdRegistry) (repo : string)
         (err : error) (w : World),
    (ImageService_List (client r) [] = Err err ->
     Repositories imports r w
     = (logged (CallList []) w, Returns (ociregistry.ErrorIter err)))
    /\
    (ImageService_List (client r) [Tags_filter imports repo] = Err err ->
     Tags imports r repo w
     = (logged (CallList [Tags_filter imports repo]) w,
        Returns (ociregistry.ErrorIter err))).
Proof.
  intros imports r repo err w. split; intros H.
  - now rewrite Repositories_run, H.
  - now rewrite Tags_run, H.
Qed.

Lemma listing_failure_is_passed_on_witness :
  Repositories Mock.imports {| client := Mock.downClient |} World0
  = (logged (CallList []) World0,
     Returns (ociregistry.ErrorIter Mock.ErrUnavailable))
  /\ Tags Mock.imports {| client := Mock.downClient |} "foo" World0
     = (logged (CallList [Tags_filter Mock.imports "foo"]) World0,
        Returns (ociregistry.ErrorIter Mock.ErrUnavailable)).
Proof.
  split.
  - apply (proj1 (listing_failure_is_passed_on
                    Mock.imports {| client := Mock.downClient |} "foo"
                    Mock.ErrUnavailable World0)).
    reflexivity.
  - apply (proj2 (listing_failure_is_passed_on
                    Mock.imports {| client := Mock.downClient |} "foo"
                    Mock.ErrUnavailable World0)).
    reflexivity.
Defined.

Lemma squeeze_neighbours (l : list string) :
  Sorted (fun a b : string => a <> b) (squeeze l).
Proof.
  induction l as [| x [| y rest] IH].
  - constructor.
  - repeat constructor.
  - rewrite squeeze_cons2. destruct (String.eqb_spec x y) as [-> | Hne].
    + exact IH.
    + constructor; [exact IH |].
      destruct (squeeze_head y rest) as [tl ->]. now constructor.
Qed.

Lemma squeeze_length (l : list string) :
  List.length (squeeze l) <= List.length l.
Proof.
  induction l as [| x [| y rest] IH]; [reflexivity | reflexivity |].
  rewrite squeeze_cons2. destruct (x =? y); cbn [List.length] in *; lia.
Qed.

Lemma squeeze_nil_iff (l : list string) : squeeze l = [] <-> l = [].
Proof.
  split; [| now intros ->].
  destruct l as [| x l]; [reflexivity |].
  destruct (squeeze_head x l) as [tl ->]. discriminate.
Qed.

Lemma parsed_names_length (imports : Imports) (images : list images.Image) :
  List.length (parsed_names imports images) <= List.length images.
Proof.
  induction images as [| image rest IH]; [reflexivity |].
  rewrite parsed_names_cons.
  destruct (docker_ParseNormalizedNamed imports (images.Name image));
    cbn [List.length]; lia.
Qed.

(** For every catalog, in whatever order: no name that [Repositories]
    emits is followed by the same name; there are at most as many names as
    entries; and the output is empty exactly when no name of the catalog
    parses. *)
Theorem Repositories_no_equal_neighbours :
  forall (imports : Imports) (r : containerdRegistry)
         (images : list images.Image) (w : World),
    ImageService_List (client r) [] = Ok images ->
    exists names : list string,
      Repositories imports r w
      = (logged (CallList []) w, Returns (ociregistry.SliceIter names))
      /\ Sorted (fun a b : string => a <> b) names
      /\ List.length names <= List.length images
      /\ (names = [] <-> parsed_names imports images = []).
Proof.
  intros imports r images w H.
  exists (squeeze (parsed_names imports images)).
  split; [now rewrite Repositories_run, H |].
  split; [apply squeeze_neighbours |]. split.
  - etransitivity; [apply squeeze_length | apply parsed_names_length].
  - apply squeeze_nil_iff.
Qed.

Lemma Repositories_no_equal_neighbours_witness :
  exists names : list string,
    Repositories Mock.imports (Mock.registry Mock.shortNamesCatalog []) World0
    = (logged (CallList []) World0, Returns (ociregistry.SliceIter names))
    /\ Sorted (fun a b : string => a <> b) names
    /\ List.length names <= 3.
Proof.
  destruct (Repositories_no_equal_neighbours
              Mock.imports (Mock.registry Mock.shortNamesCatalog [])
              Mock.shortNamesCatalog World0 eq_refl)
    as (names & Hrun & Hnb & Hlen & _).
  exists names. split; [exact Hrun |]. split; [exact Hnb | exact Hlen].
Defined.

Lemma after_run_other (x y : string) (rest : list string) :
  x <> y -> after_run x (y :: rest) = y :: rest.
Proof. intros H. cbn. apply String.eqb_neq in H. now rewrite H. Qed.

Lemma grouped_NoDup (l : list string) :
  grouped l = true -> NoDup (squeeze l).
Proof.
  induction l as [| x [| y rest] IH]; intros H.
  - constructor.
  - repeat constructor. intros [].
  - cbn [grouped] in H. apply andb_prop in H as [Hx Hrest].
    rewrite squeeze_cons2. destruct (String.eqb_spec x y) as [-> | Hne].
    + now apply IH.
    + constructor; [| now apply IH].
      rewrite squeeze_In, <- (after_run_other x y rest Hne).
      intros Hin. apply negb_true_iff in Hx.
      assert (Hex : existsb (String.eqb x) (after_run x (y :: rest)) = true).
      { apply existsb_exists. exists x. split; [exact Hin |].
        apply String.eqb_refl. }
      congruence.
Qed.

(** It is enough that the entries of one repository stand together in the
    listing, sorted or not: then [Repositories] emits every repository
    exactly once. *)
Theorem Repositories_once_when_grouped :
  forall (imports : Imports) (r : containerdRegistry)
         (images : list images.Image) (w : World),
    ImageService_List (client r) [] = Ok images ->
    grouped (parsed_names imports images) = true ->
    exists names : list string,
      Repositories imports r w
      = (logged (CallList []) w, Returns (ociregistry.SliceIter names))
      /\ NoDup names
      /\ (forall repo : string,
             In repo names <-> In repo (parsed_names imports images)).
Proof.
  intros imports r images w H Hg.
  exists (squeeze (parsed_names imports images)).
  split; [now rewrite Repositories_run, H |].
  split; [now apply grouped_NoDup | intros repo; apply squeeze_In].
Qed.

Lemma Repositories_once_when_grouped_witness :
  exists names : list string,
    Repositories Mock.hyphenated (Mock.registry Mock.hyphenatedCatalog []) World0
    = (logged (CallList []) World0, Returns (ociregistry.SliceIter names))
    /\ NoDup names
    /\ In "docker.io/a/b-c" names
    /\ ~ Sorted str_le (parsed_names Mock.hyphenated Mock.hyphenatedCatalog).
Proof.
  destruct (Repositories_once_when_grouped
              Mock.hyphenated (Mock.registry Mock.hyphenatedCatalog [])
              Mock.hyphenatedCatalog World0 eq_refl eq_refl)
    as (names & Hrun & Hnd & Hin).
  exists names. split; [exact Hrun |]. split; [exact Hnd |]. split.
  - apply Hin. now left.
  - intros Hs. apply Sorted_inv in Hs as [_ Hhd]. apply HdRel_inv in Hhd.
    discriminate Hhd.
Defined.

Lemma parsed_tags_length (imports : Imports) (images : list images.Image) :
  List.length (parsed_tags imports images) <= List.length images.
Proof.
  induction images as [| image rest IH]; [reflexivity |].
  rewrite parsed_tags_cons, length_app.
  destruct (docker_Parse imports (images.Name image)) as [[] | e];
    cbn [List.length]; lia.
Qed.

(** [Tags] emits at most one tag for an entry of the listing, and none at
    all exactly when every entry that parses is digested or has no tag: an
    entry with a tag and a digest counts as digested. *)
Theorem Tags_skips_digested_and_untagged :
  forall (imports : Imports) (r : containerdRegistry) (repo : string)
         (images : list images.Image) (w : World),
    ImageService_List (client r) [Tags_filter imports repo] = Ok images ->
    exists tags : list string,
      Tags imports r repo w
      = (logged (CallList [Tags_filter imports repo]) w,
         Returns (ociregistry.SliceIter tags))
      /\ List.length tags <= List.length images
      /\ (tags = []
          <-> forall (image : images.Image) (ref : docker.Reference),
                In image images ->
                docker_Parse imports (images.Name image) = Ok ref ->
                docker.Digested ref <> None \/ docker.Tagged ref = None).
Proof.
  intros imports r repo images w H.
  exists (parsed_tags imports images).
  split; [now rewrite Tags_run, H |].
  split; [apply parsed_tags_length |]. split.
  - intros Hnil image ref Hin Hp.
    destruct (docker.Digested ref) as [d |] eqn:Ed; [left; discriminate |].
    destruct (docker.Tagged ref) as [tag |] eqn:Et; [| now right].
    assert (Hin' : In tag (parsed_tags imports images)).
    { apply parsed_tags_In. now exists image, ref. }
    rewrite Hnil in Hin'. contradiction.
  - intros Hall. destruct (parsed_tags imports images) as [| tag l] eqn:E;
      [reflexivity |].
    assert (Hin : In tag (parsed_tags imports images))
      by (rewrite E; now left).
    apply parsed_tags_In in Hin as (image & ref & Hin & Hp & Hd & Ht).
    destruct (Hall image ref Hin Hp) as [Hd' | Ht']; congruence.
Qed.

Lemma Tags_skips_digested_and_untagged_witness :
  ImageService_List (client (Mock.registry Mock.digestedCatalog []))
                    [Tags_filter Mock.imports "docker.io/a/b"]
  = Ok [Mock.image ("docker.io/a/b:v3@" ++ Mock.sha)]
  /\ Tags Mock.imports (Mock.registry Mock.digestedCatalog []) "docker.io/a/b"
          World0
     = (logged (CallList [Tags_filter Mock.imports "docker.io/a/b"]) World0,
        Returns (ociregistry.SliceIter [])).
Proof.
  split; [reflexivity |].
  destruct (Tags_skips_digested_and_untagged
              Mock.imports (Mock.registry Mock.digestedCatalog [])
              "docker.io/a/b"
              [Mock.image ("docker.io/a/b:v3@" ++ Mock.sha)] World0 eq_refl)
    as (tags & Hrun & _ & Hnil).
  rewrite Hrun. do 3 f_equal. apply Hnil.
  intros image ref [<- | []] Hp. injection Hp as <-. left. discriminate.
Defined.
